(** * Ren'Py style cascade and JSONDB: a shallow embedding

    This development embeds two source files of the repository:

    - [renpy/style.py]: the prefix and property registries, the expansion
      table built by [init], the style objects and the style manager, and
      the resolution engine ([expand_properties], [build_style],
      [build_styles], [rebuild], [backup], [restore]);
    - [renpy/common/00db_ren.py]: the [JSONDB] dictionary-like store.

    Python objects live in an explicit heap (a list of records addressed by
    position), module globals are fields of a state record, and every
    function that can raise is written in a small state-and-exception monad
    whose failures carry the state reached when the exception was raised. *)

From Stdlib Require Import ZArith String List Ascii Lia Sorted Permutation.
From Stdlib Require OrderedTypeEx.
From stdpp Require Import base gmap strings list fin_maps.

Open Scope string_scope.
Open Scope list_scope.

(** ** Python exceptions and the state-and-exception monad *)

(** The exceptions the two files can raise.  [Exception_] stands for a bare
    [Exception(msg)]; the built-in ones keep their Python class name.
    [SystemError] is what the embedding answers when an address has no
    object in the heap, which no state built by the operations below
    contains. *)
Inductive exn : Type :=
| Exception_ (msg : string)
| RuntimeError (msg : string)
| TypeError (msg : string)
| KeyError (key : string)
| IndexError
| AttributeError (msg : string)
| SystemError (msg : string).

(** Outcome of running a piece of code from a state: it returns a value and
    a new state, it raises (and the state is the one reached when the
    exception left the function), or a [while] loop was still running when
    the iteration budget ran out. *)
Inductive result (S A : Type) : Type :=
| Ok (a : A) (s : S)
| Raise (e : exn) (s : S)
| OutOfFuel.

Arguments Ok {S A} a s.
Arguments Raise {S A} e s.
Arguments OutOfFuel {S A}.

Definition M (S A : Type) : Type := S -> result S A.

Definition ret {S A} (a : A) : M S A := fun s => Ok a s.

Definition bind {S A B} (c : M S A) (k : A -> M S B) : M S B :=
  fun s => match c s with
           | Ok a s' => k a s'
           | Raise e s' => Raise e s'
           | OutOfFuel => OutOfFuel
           end.

Definition raise {S A} (e : exn) : M S A := fun s => Raise e s.

Definition get_state {S} : M S S := fun s => Ok s s.

Definition put_state {S} (s : S) : M S unit := fun _ => Ok tt s.

Notation "x <- c1 ;; c2" := (bind c1 (fun x => c2))
  (at level 100, c1 at next level, right associativity).
Notation "c1 ;;; c2" := (bind c1 (fun _ => c2))
  (at level 100, right associativity).

(** [for x in l: body(x)], stopping at the first exception. *)
Fixpoint for_each {S A} (l : list A) (body : A -> M S unit) : M S unit :=
  match l with
  | [] => ret tt
  | x :: l' => body x ;;; for_each l' body
  end.

(** ** Python values stored in style properties

    A property value is an arbitrary Python object.  The embedding keeps
    [None], integers and strings, with the Python 2 ordering between them
    ([None] below every number, numbers below strings), which is what
    [list.sort] uses when it compares the third component of two tuples. *)
Inductive value : Type :=
| VNone
| VInt (n : Z)
| VStr (s : string).

Definition value_compare (a b : value) : comparison :=
  match a, b with
  | VNone, VNone => Eq
  | VNone, _ => Lt
  | _, VNone => Gt
  | VInt x, VInt y => Z.compare x y
  | VInt _, VStr _ => Lt
  | VStr _, VInt _ => Gt
  | VStr x, VStr y => String.compare x y
  end.

Module Style.

(** ** Registries of [renpy/style.py] *)

(* roles = [ 'selected_', '' ] *)
Definition roles : list string := ["selected_"; ""].

(* prefixes = [ 'hover_', 'idle_', 'insensitive_', 'activate_', ] *)
Definition prefixes0 : list string :=
  ["hover_"; "idle_"; "insensitive_"; "activate_"].

(* prefix.startswith(r) *)
Definition startswith (s r : string) : bool := String.prefix r s.

(* prefix.endswith(p) *)
Definition endswith (s p : string) : bool :=
  (String.length p <=? String.length s)%nat &&
  String.eqb (substring (String.length s - String.length p) (String.length p) s) p.

(** The two module globals [register_prefix] touches: the list [prefixes]
    (mutated in place by [alts2 += addprefixes] when [alts2] is the global
    list itself) and the dictionary [prefix_subs]. *)
Record registry : Type := {
  prefixes : list string;
  prefix_subs : gmap string (nat * list string)
}.

(** [register_prefix(prefix, prio, addprefixes=[])].  The [for ... else]
    loops pick the first matching role (a non-empty one) and the first
    matching state prefix; when none matches, the name is bound to the
    global list (no copy), so that [+=] extends the global in place. *)
Definition register_prefix (prefix : string) (prio : nat)
    (addprefixes : list string) (g : registry) : registry :=
  let alts1 :=
    match List.find (fun r => negb (String.eqb r "") && startswith prefix r) roles with
    | Some r => [r]
    | None => roles
    end in
  let found := List.find (fun p => endswith prefix p) (prefixes g) in
  let alts2 :=
    match found with
    | Some p => [p] ++ addprefixes
    | None => prefixes g ++ addprefixes
    end in
  let alts := a1 ← alts1; a2 ← alts2; [a1 +:+ a2] in
  {| prefixes := match found with Some _ => prefixes g | None => alts2 end;
     prefix_subs := <[prefix := (prio, alts)]> (prefix_subs g) |}.

(** The ten module-level calls, in source order. *)
Definition registered : registry :=
  register_prefix "" 1 []
  (register_prefix "insensitive_" 2 []
  (register_prefix "idle_" 2 []
  (register_prefix "hover_" 2 ["activate_"]
  (register_prefix "activate_" 3 []
  (register_prefix "selected_" 4 []
  (register_prefix "selected_insensitive_" 5 []
  (register_prefix "selected_idle_" 5 []
  (register_prefix "selected_hover_" 5 ["activate_"]
  (register_prefix "selected_activate_" 6 []
     {| prefixes := prefixes0; prefix_subs := ∅ |}))))))))).

(** The normalisers named in [style_properties].  They belong to
    [renpy.easy], which is outside the two files; the table only stores
    which one a property uses. *)
Inductive normalizer : Type := easy_displayable | easy_color.

(** [style_properties], in the order of the source text.  The source
    holds it in a dictionary, whose enumeration order Python 2 leaves
    unspecified: the property numbers are, in the words of [init], an
    "arbitrary, session-specific" numbering.  The embedding numbers the
    properties in the order they are written; the statements below speak
    of slots through [property_number] and [prefix_offset] and never of a
    particular number. *)
Definition style_properties : list (string * option normalizer) :=
  [ ("antialias", None);
    ("background", Some easy_displayable);
    ("bar_invert", None);
    ("bar_vertical", None);
    ("black_color", Some easy_color);
    ("bold", None);
    ("bottom_bar", Some easy_displayable);
    ("bottom_gutter", None);
    ("bottom_margin", None);
    ("bottom_padding", None);
    ("box_first_spacing", None);
    ("box_layout", None);
    ("box_spacing", None);
    ("clipping", None);
    ("color", Some easy_color);
    ("drop_shadow", None);
    ("drop_shadow_color", Some easy_color);
    ("enable_hover", None);
    ("first_indent", None);
    ("focus_mask", None);
    ("focus_rect", None);
    ("font", None);
    ("sound", None);
    ("italic", None);
    ("initial_time_offset", None);
    ("layout", None);
    ("left_bar", Some easy_displayable);
    ("left_gutter", None);
    ("left_margin", None);
    ("left_padding", None);
    ("line_spacing", None);
    ("min_width", None);
    ("rest_indent", None);
    ("right_bar", Some easy_displayable);
    ("right_gutter", None);
    ("right_margin", None);
    ("right_padding", None);
    ("size", None);
    ("slow_abortable", None);
    ("slow_cps", None);
    ("slow_cps_multiplier", None);
    ("subtitle_width", None);
    ("text_y_fudge", None);
    ("text_align", None);
    ("thumb", Some easy_displayable);
    ("thumb_offset", None);
    ("thumb_shadow", Some easy_displayable);
    ("top_bar", Some easy_displayable);
    ("top_gutter", None);
    ("top_margin", None);
    ("top_padding", None);
    ("underline", None);
    ("xanchor", None);
    ("xfill", None);
    ("xmaximum", None);
    ("xminimum", None);
    ("xoffset", None);
    ("xpos", None);
    ("yanchor", None);
    ("yfill", None);
    ("ymaximum", None);
    ("yminimum", None);
    ("yoffset", None);
    ("ypos", None) ].

(* substitutes = dict(xmargin = [...], ...) *)
Definition substitutes : list (string * list string) :=
  [ ("xmargin", ["left_margin"; "right_margin"]);
    ("ymargin", ["top_margin"; "bottom_margin"]);
    ("xalign", ["xpos"; "xanchor"]);
    ("yalign", ["ypos"; "yanchor"]);
    ("xpadding", ["left_padding"; "right_padding"]);
    ("ypadding", ["top_padding"; "bottom_padding"]);
    ("minwidth", ["min_width"]);
    ("textalign", ["text_align"]);
    ("slow_speed", ["slow_cps"]) ].

(** One element of an expansion: [(prio, propn, func)]. *)
Definition entry : Type := nat * nat * option normalizer.

(** The tables [init] fills. *)
Record tables : Type := {
  property_number : gmap string nat;
  prefix_offset : gmap string nat;
  expansions : gmap string (list entry);
  property_numbers : nat
}.

(* for i, p in enumerate(style_properties): property_number[p] = i *)
Fixpoint number_properties (i : nat) (ps : list (string * option normalizer))
    (pn : gmap string nat) : gmap string nat :=
  match ps with
  | [] => pn
  | (p, _) :: ps' => number_properties (S i) ps' (<[p := i]> pn)
  end.

(* for r in roles: for p in prefixes:
       prefix_offset[r + p] = property_numbers
       property_numbers += len(style_properties) *)
Definition offset_prefixes (pfx : list string) : gmap string nat * nat :=
  fold_left
    (fun acc rp => (<[rp := acc.2]> acc.1, acc.2 + length style_properties))
    (r ← roles; p ← pfx; [r +:+ p])
    (∅, 0).

(* style_properties[prop] *)
Definition style_property (prop : string) : option (option normalizer) :=
  snd <$> List.find (fun kv => String.eqb kv.1 prop) style_properties.

(* expansions[prefix + prop] =
     [ (prio, propn + prefix_offset[a], func) for a in alts ] *)
Definition expand_regular (po : gmap string nat) (prefix : string) (prio : nat)
    (alts : list string) (prop : string) (propn : nat)
    (ex : gmap string (list entry)) : option (gmap string (list entry)) :=
  func ← style_property prop;
  l ← mapM (fun a => off ← po !! a; Some (prio, propn + off, func)) alts;
  Some (<[prefix +:+ prop := l]> ex).

(* expansions[p + k] = [ a for b in substitutes[k] for a in expansions[p + b] ] *)
Definition expand_substitute (p k : string) (targets : list string)
    (ex : gmap string (list entry)) : option (gmap string (list entry)) :=
  ls ← mapM (fun b => ex !! (p +:+ b)) targets;
  Some (<[p +:+ k := concat ls]> ex).

(** Left-to-right iteration of a step that can fail on a missing key. *)
Fixpoint foldM {A B} (f : A -> B -> option B) (l : list A) (b : B) : option B :=
  match l with
  | [] => Some b
  | x :: l' => b' ← f x b; foldM f l' b'
  end.

(** [init()].  A lookup of a missing key aborts it. *)
Definition init (g : registry) : option tables :=
  let pn := number_properties 0 style_properties ∅ in
  let '(po, total) := offset_prefixes (prefixes g) in
  ex ← foldM
        (fun '(prefix, (prio, alts)) ex =>
           foldM (fun '(prop, propn) ex => expand_regular po prefix prio alts prop propn ex)
                 (map_to_list pn) ex)
        (map_to_list (prefix_subs g)) ∅;
  ex ← foldM
        (fun '(k, targets) ex =>
           foldM (fun p ex => expand_substitute p k targets ex)
                 (prefixes g ++ [""]) ex)
        substitutes ex;
  Some {| property_number := pn; prefix_offset := po;
          expansions := ex; property_numbers := total |}.

(** The module runs [init()] once at load time, after the ten
    [register_prefix] calls; the tables below are its result. *)
Definition no_tables : tables :=
  {| property_number := ∅; prefix_offset := ∅; expansions := ∅;
     property_numbers := 0 |}.

Definition loaded : tables :=
  default no_tables (init registered).

(** ** Style objects and the module state *)

Abbreviation addr := nat (only parsing).

(** One batch of raw assignments: a dictionary from prefixed property name
    to raw value, listed in the order [iteritems()] yields it. *)
Definition batch : Type := list (string * value).

(** The slots of a [Style] object.  [cache] is [None] until the style is
    built; [help] is declared in [__slots__] but never assigned. *)
Record style : Type := {
  cache : option (list value);
  properties : list batch;
  offset : nat;
  prefix : string;
  heavy : bool;
  name : option string;
  parent : option string
}.

Definition set_cache (c : option (list value)) (s : style) : style :=
  {| cache := c; properties := properties s; offset := offset s;
     prefix := prefix s; heavy := heavy s; name := name s; parent := parent s |}.

Definition set_properties (ps : list batch) (s : style) : style :=
  {| cache := cache s; properties := ps; offset := offset s;
     prefix := prefix s; heavy := heavy s; name := name s; parent := parent s |}.

Definition set_offset (n : nat) (s : style) : style :=
  {| cache := cache s; properties := properties s; offset := n;
     prefix := prefix s; heavy := heavy s; name := name s; parent := parent s |}.

Definition set_prefix_field (p : string) (s : style) : style :=
  {| cache := cache s; properties := properties s; offset := offset s;
     prefix := p; heavy := heavy s; name := name s; parent := parent s |}.

Definition set_name (n : option string) (s : style) : style :=
  {| cache := cache s; properties := properties s; offset := offset s;
     prefix := prefix s; heavy := heavy s; name := n; parent := parent s |}.

(** The module globals that change after load time, and the heap of style
    objects.  [styles_pending] is a list or [None]. *)
Record state : Type := {
  heap : list style;
  style_map : gmap string addr;
  styles_built : bool;
  styles_pending : option (list addr)
}.

Definition set_heap (h : list style) (st : state) : state :=
  {| heap := h; style_map := style_map st;
     styles_built := styles_built st; styles_pending := styles_pending st |}.

Definition set_style_map (m : gmap string addr) (st : state) : state :=
  {| heap := heap st; style_map := m;
     styles_built := styles_built st; styles_pending := styles_pending st |}.

Definition set_styles_built (b : bool) (st : state) : state :=
  {| heap := heap st; style_map := style_map st;
     styles_built := b; styles_pending := styles_pending st |}.

Definition set_styles_pending (l : option (list addr)) (st : state) : state :=
  {| heap := heap st; style_map := style_map st;
     styles_built := styles_built st; styles_pending := l |}.

(* reset() *)
Definition reset : state :=
  {| heap := []; style_map := ∅; styles_built := false; styles_pending := Some [] |}.

(** Reading and writing the object at an address. *)
Definition deref (a : addr) : M state style :=
  fun st => match heap st !! a with
            | Some s => Ok s st
            | None => Raise (SystemError "no object at this address") st
            end.

Definition update (a : addr) (f : style -> style) : M state unit :=
  fun st => match heap st !! a with
            | Some s => Ok tt (set_heap (<[a := f s]> (heap st)) st)
            | None => Raise (SystemError "no object at this address") st
            end.

Definition modify (f : state -> state) : M state unit :=
  fun st => Ok tt (f st).

(** ** Expansion of one batch *)

(** A tuple [(prio, propn, newval)] of [expand_properties]. *)
Definition triple : Type := nat * nat * value.

(** Python compares tuples component by component. *)
Definition triple_compare (x y : triple) : comparison :=
  match Nat.compare x.1.1 y.1.1 with
  | Eq => match Nat.compare x.1.2 y.1.2 with
          | Eq => value_compare x.2 y.2
          | c => c
          end
  | c => c
  end.

Definition triple_leb (x y : triple) : bool :=
  match triple_compare x y with Gt => false | _ => true end.

(** [rv.sort()]: a stable sort, written as an insertion sort that puts an
    element before the first one it does not exceed. *)
Fixpoint insert_sorted (x : triple) (l : list triple) : list triple :=
  match l with
  | [] => [x]
  | y :: l' => if triple_leb x y then x :: l else y :: insert_sorted x l'
  end.

Definition sort (l : list triple) : list triple := foldr insert_sorted [] l.

Section Resolution.

(** The functions of [renpy.easy] the table refers to: pure functions from
    a raw value to its normalised form. *)
Variable renpy_easy : normalizer -> value -> value.

(** The inner loop of [expand_properties] over one expansion [e].  The
    dictionary [cache] of the source is keyed by [id(val)] alone and is
    cleared before each property, so within one property it holds at most
    the one normalised value [memo], whichever function produced it. *)
Fixpoint expand_entries (e : list entry) (val : value) (memo : option value)
    : list triple :=
  match e with
  | [] => []
  | (prio, propn, func) :: e' =>
      match func with
      | Some f =>
          let newval := match memo with
                        | Some cached => cached
                        | None => renpy_easy f val
                        end in
          (prio, propn, newval) :: expand_entries e' val (Some newval)
      | None => (prio, propn, val) :: expand_entries e' val memo
      end
  end.

(** The outer loop: the tuples of every property of the batch, in iteration
    order, or the exception of the first unknown property. *)
Fixpoint expand_items (T : tables) (items : batch) : exn + list triple :=
  match items with
  | [] => inr []
  | (prop, val) :: rest =>
      match expansions T !! prop with
      | None => inl (Exception_ ("Style property " +:+ prop +:+ " is unknown."))
      | Some e =>
          match expand_items T rest with
          | inl err => inl err
          | inr rv => inr (expand_entries e val None ++ rv)
          end
      end
  end.

(* expand_properties(properties) *)
Definition expand_properties (T : tables) (properties : batch) : exn + list triple :=
  match expand_items T properties with
  | inl err => inl err
  | inr rv => inr (sort rv)
  end.

(** ** The resolution engine *)

(* '%s' % style.parent *)
Definition str (o : option string) : string :=
  match o with Some s => s | None => "None" end.

(** The [while s:] loop of [build_style], one iteration per unit of fuel.
    [style_parent] is [style.parent] of the style being built, which the
    error message quotes.  The name is looked up in [style_map]; the
    fall-back [getattr(renpy.game.style, parent)] goes through
    [StyleManager.__getattr__], which reads the same [style_map], so it
    fails exactly when the first lookup does.  The result is the list
    [light_styles] and the heavy parent the loop stopped at, if any. *)
Fixpoint walk (fuel : nat) (style_parent : option string) (s : addr)
    (light_styles : list addr) : M state (list addr * option addr) :=
  match fuel with
  | O => fun _ => OutOfFuel
  | S fuel' =>
      let light_styles := s :: light_styles in
      so <- deref s ;;
      match parent so with
      | None => ret (light_styles, None)
      | Some pname =>
          st <- get_state ;;
          match style_map st !! pname with
          | None => raise (Exception_ ("Style " +:+ str style_parent +:+ " is not known."))
          | Some pa =>
              po <- deref pa ;;
              if heavy po then ret (light_styles, Some pa)
              else walk fuel' style_parent pa light_styles
          end
      end
  end.

(* cache[propn] = val *)
Definition store_slot (c : list value) (propn : nat) (val : value) : exn + list value :=
  if (propn <? length c)%nat then inr (<[propn := val]> c) else inl IndexError.

Fixpoint store_triples (ts : list triple) (c : list value) : exn + list value :=
  match ts with
  | [] => inr c
  | (_, propn, val) :: ts' =>
      match store_slot c propn val with
      | inl err => inl err
      | inr c' => store_triples ts' c'
      end
  end.

(* for p in s.properties: for prio, propn, val in expand_properties(p): ... *)
Fixpoint replay_batches (T : tables) (ps : list batch) (c : list value)
    : exn + list value :=
  match ps with
  | [] => inr c
  | p :: ps' =>
      match expand_properties T p with
      | inl err => inl err
      | inr ts =>
          match store_triples ts c with
          | inl err => inl err
          | inr c' => replay_batches T ps' c'
          end
      end
  end.

(* for s in light_styles: ... *)
Fixpoint replay_styles (T : tables) (light_styles : list addr) (c : list value)
    : M state (list value) :=
  match light_styles with
  | [] => ret c
  | s :: rest =>
      so <- deref s ;;
      match replay_batches T (properties so) c with
      | inl err => raise err
      | inr c' => replay_styles T rest c'
      end
  end.

(* not parent.cache *)
Definition cache_unset (c : option (list value)) : bool :=
  match c with
  | None => true
  | Some [] => true
  | Some (_ :: _) => false
  end.

(** [build_style(style)].  [depth] is the number of Python frames still
    available: the recursive call on the heavy parent uses one, and a call
    with none left raises the interpreter's [RuntimeError]. *)
Fixpoint build_style (T : tables) (depth fuel : nat) (a : addr) : M state unit :=
  match depth with
  | O => raise (RuntimeError "maximum recursion depth exceeded")
  | S depth' =>
      style <- deref a ;;
      if negb (heavy style) then ret tt
      else
        found <- walk fuel (parent style) a [] ;;
        c <- match found.2 with
             | Some pa =>
                 po <- deref pa ;;
                 (if cache_unset (cache po) then build_style T depth' fuel pa else ret tt) ;;;
                 po <- deref pa ;;
                 match cache po with
                 | Some pc => ret pc
                 | None => raise (TypeError "'NoneType' object has no attribute '__getitem__'")
                 end
             | None => ret (replicate (property_numbers T) VNone)
             end ;;
        c <- replay_styles T found.1 c ;;
        update a (set_cache (Some c))
  end.

(* build_styles() *)
Definition build_styles (T : tables) (depth fuel : nat) : M state unit :=
  st <- get_state ;;
  match styles_pending st with
  | None => raise (TypeError "'NoneType' object is not iterable")
  | Some pending => for_each pending (build_style T depth fuel)
  end ;;;
  modify (set_styles_pending None) ;;;
  modify (set_styles_built true).

(** [i.__dict__["cache"] = { }].  [Style] declares [__slots__] and derives
    from [object], so its instances have no [__dict__]: the attribute
    access raises. *)
Definition set_dict_cache (i : addr) : M state unit :=
  raise (AttributeError "'Style' object has no attribute '__dict__'").

(* [ i for i in style_map.values() if i.heavy ] *)
Fixpoint heavy_styles (vals : list addr) : M state (list addr) :=
  match vals with
  | [] => ret []
  | i :: rest =>
      so <- deref i ;;
      l <- heavy_styles rest ;;
      ret (if heavy so then i :: l else l)
  end.

(** [rebuild()].  The function declares [global style_pending], so the
    assignment to [styles_pending] binds a local variable and the module
    global keeps its value. *)
Definition rebuild (T : tables) (depth fuel : nat) : M state unit :=
  st <- get_state ;;
  styles_pending_local <- heavy_styles (snd <$> map_to_list (style_map st)) ;;
  modify (set_styles_built false) ;;;
  for_each styles_pending_local set_dict_cache ;;;
  build_styles T depth fuel.

(** A snapshot: style name to a copy of the list of batches. *)
Fixpoint backup_items (items : list (string * addr))
    (rv : gmap string (list batch)) : M state (gmap string (list batch)) :=
  match items with
  | [] => ret rv
  | (k, v) :: rest =>
      so <- deref v ;;
      backup_items rest (<[k := properties so]> rv)
  end.

(* backup() *)
Definition backup : M state (gmap string (list batch)) :=
  st <- get_state ;;
  backup_items (map_to_list (style_map st)) ∅.

(* styles_pending.append(x) *)
Definition pending_append (x : addr) : M state unit :=
  st <- get_state ;;
  match styles_pending st with
  | Some l => modify (set_styles_pending (Some (l ++ [x])))
  | None => raise (AttributeError "'NoneType' object has no attribute 'append'")
  end.

(* style_map[k] *)
Definition style_map_get (k : string) : M state addr :=
  st <- get_state ;;
  match style_map st !! k with
  | Some a => ret a
  | None => raise (KeyError k)
  end.

(** The body of the loop of [restore]:
    [style_map[k].properties = v; styles_pending.append(style_map[k])]. *)
Definition restore_body (kv : string * list batch) : M state unit :=
  a <- style_map_get kv.1 ;;
  update a (set_properties kv.2) ;;;
  a' <- style_map_get kv.1 ;;
  pending_append a'.

(* restore(o) *)
Definition restore (o : gmap string (list batch)) : M state unit :=
  modify (set_styles_pending (Some [])) ;;;
  modify (set_styles_built false) ;;;
  for_each (map_to_list o) restore_body.

(** ** The [Style] class and the style manager *)

(** The [parent] argument of [Style(...)]: [None], a name, or another style
    object, which is replaced by its name. *)
Inductive parent_arg : Type :=
| ParentNone
| ParentName (n : string)
| ParentStyle (a : addr).

(* prefix_offset[prefix] *)
Definition prefix_offset_get (T : tables) (p : string) : M state nat :=
  match prefix_offset T !! p with
  | Some n => ret n
  | None => raise (KeyError p)
  end.

(** [Style.__init__(self, parent, properties, heavy, name)].  The object
    is allocated at the end of the heap with its slots as the constructor
    leaves them just before its last statement; the address is returned. *)
Definition Style_init (T : tables) (depth fuel : nat) (parent : parent_arg)
    (properties : option batch) (heavy : bool) (name : option string)
    : M state addr :=
  off <- prefix_offset_get T "insensitive_" ;;
  parent <- match parent with
            | ParentNone => ret None
            | ParentName n => ret (Some n)
            | ParentStyle pa =>
                po <- deref pa ;;
                match Style.name po with
                | Some n => ret (Some n)
                | None => raise (Exception_ "The parent of a style must be a named style.")
                end
            end ;;
  st <- get_state ;;
  let self := length (heap st) in
  let obj := {| cache := None;
                properties := match properties with
                              | Some (kv :: rest) => [kv :: rest]
                              | _ => []
                              end;
                offset := off;
                prefix := "insensitive_";
                heavy := heavy;
                name := name;
                parent := parent |} in
  modify (set_heap (heap st ++ [obj])) ;;;
  (if styles_built st then build_style T depth fuel self
   else pending_append self) ;;;
  ret self.

(* StyleManager.create(self, name, parent, description=None) *)
Definition create (T : tables) (depth fuel : nat) (name : string)
    (parent : parent_arg) : M state unit :=
  s <- Style_init T depth fuel parent (Some []) true None ;;
  st <- get_state ;;
  modify (set_style_map (<[name := s]> (style_map st))) ;;;
  update s (set_name (Some name)).

(* StyleManager.exists(self, name) *)
Definition exists_ (name : string) (st : state) : bool :=
  bool_decide (is_Some (style_map st !! name)).

(** [Style.set_prefix(self, prefix)]: the slot [prefix] is assigned before
    the offset is looked up. *)
Definition set_prefix (T : tables) (self : addr) (p : string) : M state unit :=
  update self (set_prefix_field p) ;;;
  off <- prefix_offset_get T p ;;
  update self (set_offset off).

(* Style.setattr(self, name, value) *)
Definition setattr (T : tables) (depth fuel : nat) (self : addr)
    (name : string) (v : value) : M state unit :=
  so <- deref self ;;
  update self (set_properties (properties so ++ [[(name, v)]])) ;;;
  st <- get_state ;;
  if styles_built st then build_style T depth fuel self else ret tt.

(** The accessors [style_metaclass] generates.  Assigning the attribute
    [k] calls [setattr] when [k] is a key of [expansions]; any other name
    is not an attribute of the class (the eight slot names themselves are
    not property names and are left out). *)
Definition setter (T : tables) (depth fuel : nat) (self : addr)
    (k : string) (v : value) : M state unit :=
  match expansions T !! k with
  | Some _ => setattr T depth fuel self k v
  | None => raise (AttributeError ("'Style' object has no attribute '" +:+ k +:+ "'"))
  end.

(** Reading the attribute [k]: [self.cache[self.offset + number]] for a
    key of [property_number]. *)
Definition getter (T : tables) (self : addr) (k : string) : M state value :=
  match property_number T !! k with
  | None => raise (AttributeError "unreadable attribute")
  | Some number =>
      so <- deref self ;;
      match cache so with
      | None => raise (TypeError "'NoneType' object has no attribute '__getitem__'")
      | Some c =>
          match c !! (offset so + number) with
          | Some v => ret v
          | None => raise IndexError
          end
      end
  end.

End Resolution.

End Style.

Module JSONDB.

(** ** The JSONDB store of [renpy/common/00db_ren.py] *)

(** Python values a caller may hand to the store: the JSON-representable
    ones, and [PObject] for any object [json.dumps] refuses (a set, a
    class instance).  Numbers are integers and dictionary keys strings. *)
#[local] Set Warnings "-register-all".

Inductive pyval : Type :=
| PNone
| PBool (b : bool)
| PInt (n : Z)
| PStr (s : string)
| PList (l : list pyval)
| PDict (d : list (string * pyval))
| PObject (id : nat).

(** Whether [json.dumps(value)] returns. *)
Fixpoint serializable (v : pyval) : bool :=
  match v with
  | PList l => forallb serializable l
  | PDict d => forallb (fun kv => serializable (snd kv)) d
  | PObject _ => false
  | _ => true
  end.

(** The attributes of a [JSONDB] and the two things its methods read from
    outside: [config.developer], and what the key function returns when it
    is called now.  [key] is [None] when [self.key] is [None] and [Some r]
    when [self.key()] returns [r].  [data] maps a key ([None] included, see
    [get_dict]) to a dictionary. *)
Record state : Type := {
  fn : string;
  data : gmap (option string) (gmap string pyval);
  default : gmap string pyval;
  dirty : bool;
  key : option (option string);
  developer : bool
}.

Definition set_data (d : gmap (option string) (gmap string pyval)) (s : state) : state :=
  {| fn := fn s; data := d; default := default s; dirty := dirty s;
     key := key s; developer := developer s |}.

Definition set_dirty (b : bool) (s : state) : state :=
  {| fn := fn s; data := data s; default := default s; dirty := b;
     key := key s; developer := developer s |}.

(* JSONDB.check(self, value) *)
Definition check (v : pyval) : M state unit :=
  s <- get_state ;;
  if negb (developer s)
  then raise (RuntimeError "A JSONDB can only be modified when config.developer is True.")
  else if serializable v then ret tt
  else raise (TypeError "The data is not JSON serializable.").

(** The key [get_dict] computes: [self.key()] when there is a key function,
    ["data"] otherwise. *)
Definition current_key (s : state) : option string :=
  match key s with
  | Some r => r
  | None => Some "data"
  end.

(** [JSONDB.get_dict(self)].  The dictionary it returns is [self.data[key]]
    itself, so the embedding returns the key it is stored under and the
    callers read and write [data] at that key. *)
Definition get_dict : M state (option string) :=
  s <- get_state ;;
  let k := current_key s in
  (match k with
   | None => if developer s
             then raise (Exception_ "Accessing JSONDB with a None key.")
             else ret tt
   | Some _ => ret tt
   end) ;;;
  (match data s !! k with
   | None => put_state (set_data (<[k := default s]> (data s)) s)
   | Some _ => ret tt
   end) ;;;
  ret k.

(** The dictionary stored under [k]. *)
Definition the_dict (k : option string) : M state (gmap string pyval) :=
  s <- get_state ;;
  match data s !! k with
  | Some d => ret d
  | None => raise (KeyError "")
  end.

Definition put_dict (k : option string) (d : gmap string pyval) : M state unit :=
  s <- get_state ;;
  put_state (set_data (<[k := d]> (data s)) s).

(* __iter__: the keys of the current dictionary *)
Definition iter_ : M state (list string) :=
  k <- get_dict ;;
  d <- the_dict k ;;
  ret (fst <$> map_to_list d).

(* __len__ *)
Definition len_ : M state nat :=
  k <- get_dict ;;
  d <- the_dict k ;;
  ret (size d).

(* __getitem__ *)
Definition getitem (x : string) : M state pyval :=
  k <- get_dict ;;
  d <- the_dict k ;;
  match d !! x with
  | Some v => ret v
  | None => raise (KeyError x)
  end.

(* __setitem__ *)
Definition setitem (x : string) (v : pyval) : M state unit :=
  check v ;;;
  k <- get_dict ;;
  d <- the_dict k ;;
  put_dict k (<[x := v]> d) ;;;
  s <- get_state ;;
  put_state (set_dirty true s).

(* __delitem__ *)
Definition delitem (x : string) : M state unit :=
  s <- get_state ;;
  put_state (set_dirty true s) ;;;
  k <- get_dict ;;
  d <- the_dict k ;;
  match d !! x with
  | Some _ => put_dict k (delete x d)
  | None => raise (KeyError x)
  end.

(* __contains__ *)
Definition contains (x : string) : M state bool :=
  k <- get_dict ;;
  d <- the_dict k ;;
  ret (bool_decide (is_Some (d !! x))).

(* clear *)
Definition clear : M state unit :=
  s <- get_state ;;
  put_state (set_dirty true s) ;;;
  k <- get_dict ;;
  put_dict k ∅.

(* get(key, default=None) *)
Definition get (x : string) (dflt : pyval) : M state pyval :=
  k <- get_dict ;;
  d <- the_dict k ;;
  ret (from_option id dflt (d !! x)).

(* pop(key, default=None) *)
Definition pop (x : string) (dflt : pyval) : M state pyval :=
  s <- get_state ;;
  put_state (set_dirty true s) ;;;
  k <- get_dict ;;
  d <- the_dict k ;;
  match d !! x with
  | Some v => put_dict k (delete x d) ;;; ret v
  | None => ret dflt
  end.

(** The dictionary [d] that [update] builds from its arguments: later
    items replace earlier ones. *)
Definition dict_of (items : list (string * pyval)) : gmap string pyval :=
  fold_left (fun m kv => <[fst kv := snd kv]> m) items ∅.

(** [update]: its positional and keyword arguments are the list [items]. *)
Definition update (items : list (string * pyval)) : M state unit :=
  s <- get_state ;;
  put_state (set_dirty true s) ;;;
  let d := dict_of items in
  check (PDict (map_to_list d)) ;;;
  k <- get_dict ;;
  cur <- the_dict k ;;
  put_dict k (d ∪ cur).

End JSONDB.

(** ** Vocabulary of the statements *)

Module Props.

Import Style.

(** Every name of [style_map] is bound to an object of the heap. *)
Definition valid_map (st : state) : Prop :=
  forall k a, style_map st !! k = Some a -> is_Some (heap st !! a).

(** The object the parent name of the style at [a] is bound to. *)
Definition parent_of (st : state) (a : addr) : option addr :=
  s ← heap st !! a; pname ← parent s; style_map st !! pname.

(** The [n]-th ancestor of the style at [a] along parent names. *)
Fixpoint ancestor (st : state) (n : nat) (a : addr) : option addr :=
  match n with
  | O => Some a
  | S n' => b ← parent_of st a; ancestor st n' b
  end.

Definition light_at (st : state) (b : addr) : Prop :=
  exists s, heap st !! b = Some s /\ heavy s = false.

(** [c] lies on a cycle of the parent relation made of light styles. *)
Definition on_light_cycle (st : state) (c : addr) : Prop :=
  exists k, ancestor st (S k) c = Some c /\
    forall i, i <= k -> exists b, ancestor st i c = Some b /\ light_at st b.

(** The parent chain of [a] runs through light styles into such a
    cycle. *)
Definition leads_to_light_cycle (st : state) (a : addr) : Prop :=
  exists j c, ancestor st (S j) a = Some c /\
    (forall i, 1 <= i <= j -> exists b, ancestor st i a = Some b /\ light_at st b) /\
    on_light_cycle st c.

(** [st'] differs from [st] at most in the caches of its styles. *)
Definition same_but_caches (st st' : state) : Prop :=
  style_map st' = style_map st /\
  styles_built st' = styles_built st /\
  styles_pending st' = styles_pending st /\
  length (heap st') = length (heap st) /\
  forall a s, heap st !! a = Some s ->
    exists c, heap st' !! a = Some (set_cache c s).

(** Whatever way the computation [c] ends, [R] relates the state it
    started from and the state it ended in. *)
Definition keeps {A} (R : state -> state -> Prop) (c : M state A) : Prop :=
  forall st, match c st with
             | Ok _ st' => R st st'
             | Raise _ st' => R st st'
             | OutOfFuel => True
             end.

(** The parent argument of [create(name, parent)]: a name or [None]. *)
Definition named (pname : option string) : parent_arg :=
  match pname with Some n => ParentName n | None => ParentNone end.

(** The object [create(name, parent)] allocates, up to its cache. *)
Definition created (off : nat) (name : string) (pname : option string)
    (c : option (list value)) : style :=
  {| cache := c; properties := []; offset := off; prefix := "insensitive_";
     heavy := true; name := Some name; parent := pname |}.

(** The names of the snapshot [o] are registered in [st], each to an
    object of the heap, and no two of them to the same object. *)
Definition names_registered (st : state) (o : gmap string (list batch)) : Prop :=
  (forall k, is_Some (o !! k) ->
     exists a, style_map st !! k = Some a /\ a < length (heap st)) /\
  (forall k1 k2 a, is_Some (o !! k1) -> is_Some (o !! k2) ->
     style_map st !! k1 = Some a -> style_map st !! k2 = Some a -> k1 = k2).

(** No two names of [style_map] are bound to the same object. *)
Definition distinct_styles (st : state) : Prop :=
  forall k1 k2 a,
    style_map st !! k1 = Some a -> style_map st !! k2 = Some a -> k1 = k2.

(** The value stored for the raw value [v] of a property whose entry in
    [style_properties] is [func]. *)
Definition normalised (easy : normalizer -> value -> value)
    (func : option normalizer) (v : value) : value :=
  match func with Some f => easy f v | None => v end.

End Props.

(** ** Configurations used by the examples *)

Module Examples.

Import Style.

(** A normaliser table that leaves every value as it is. *)
Definition plain (f : normalizer) (v : value) : value := v.

(** What a run returned, what it raised, and the state it ended in. *)
Definition returned {S A} (r : result S A) : option A :=
  match r with Ok a _ => Some a | _ => None end.

Definition raised {S A} (r : result S A) : option exn :=
  match r with Raise e _ => Some e | _ => None end.

Definition state_after {S A} (c : M S A) (s : S) : S :=
  match c s with Ok _ s' => s' | Raise _ s' => s' | OutOfFuel => s end.

(** A heavy style ["h"] whose parent ["a"] is a light style that names
    itself as its parent. *)
Definition cyclic_h : style :=
  {| cache := None; properties := []; offset := 384;
     prefix := "insensitive_"; heavy := true;
     name := Some "h"; parent := Some "a" |}.

Definition cyclic_a : style :=
  {| cache := None; properties := []; offset := 384;
     prefix := "insensitive_"; heavy := false;
     name := Some "a"; parent := Some "a" |}.

Definition cyclic_state : state :=
  {| heap := [cyclic_h; cyclic_a];
     style_map := {[ "h" := 0; "a" := 1 ]};
     styles_built := false;
     styles_pending := Some [0] |}.

(** [style.create("a", "a")] run from the state [reset()] leaves: a heavy
    style that is its own parent. *)
Definition self_parent : M state unit :=
  create plain loaded 1000 1000 "a" (ParentName "a").

(** [style.create("default", None)] run from the state [reset()] leaves. *)
Definition one_style : M state unit :=
  create plain loaded 1000 1000 "default" ParentNone.

(** The scenario of the button: ["default"] with [xpos = 0], ["button"]
    with parent ["default"] and [hover_xpos = 10], then the global build.
    The result is the address of ["button"]. *)
Definition button_scenario (easy : normalizer -> value -> value) : M state addr :=
  create easy loaded 1000 1000 "default" ParentNone ;;;
  d <- style_map_get "default" ;;
  setter easy loaded 1000 1000 d "xpos" (VInt 0) ;;;
  create easy loaded 1000 1000 "button" (ParentName "default") ;;;
  b <- style_map_get "button" ;;
  setter easy loaded 1000 1000 b "hover_xpos" (VInt 10) ;;;
  build_styles easy loaded 1000 1000 ;;;
  ret b.

(** Reading [xpos] of the style at [b] with [p] as the active prefix. *)
Definition read_xpos (p : string) (b : addr) : M state value :=
  set_prefix loaded b p ;;;
  getter loaded b "xpos".

(** A snapshot taken after the build, a later assignment, then the
    restore: ["default"] is built with [xpos = 0], backed up, assigned
    [xpos = 5] (which rebuilds it), and restored.  The result is the
    address of ["default"]. *)
Definition restore_scenario : M state addr :=
  create plain loaded 1000 1000 "default" ParentNone ;;;
  d <- style_map_get "default" ;;
  setter plain loaded 1000 1000 d "xpos" (VInt 0) ;;;
  build_styles plain loaded 1000 1000 ;;;
  o <- backup ;;
  setter plain loaded 1000 1000 d "xpos" (VInt 5) ;;;
  restore o ;;;
  ret d.

(** What can be observed once [restore_scenario] has run: [xpos] read
    from the cache of ["default"], its raw properties, and the two
    globals. *)
Definition restore_observation
    : M state (value * list batch * option (list addr) * bool) :=
  d <- restore_scenario ;;
  v <- read_xpos "insensitive_" d ;;
  so <- deref d ;;
  st <- get_state ;;
  ret (v, properties so, styles_pending st, styles_built st).

(** A root heavy style, not yet built, holding the one batch [b]. *)
Definition root_with (b : batch) : state :=
  {| heap := [ {| cache := None; properties := [b]; offset := 384;
                  prefix := "insensitive_"; heavy := true;
                  name := Some "a"; parent := None |} ];
     style_map := {[ "a" := 0 ]};
     styles_built := false;
     styles_pending := Some [0] |}.

(** A database keyed by the default key ["data"], holding one item, with
    [config.developer] off. *)
Definition released_db : JSONDB.state :=
  {| JSONDB.fn := "balloon.json";
     JSONDB.data := {[ Some "data" := {[ "enabled" := JSONDB.PBool true ]} ]};
     JSONDB.default := {[ "enabled" := JSONDB.PBool false ]};
     JSONDB.dirty := false;
     JSONDB.key := None;
     JSONDB.developer := false |}.

(** The same database with [config.developer] on. *)
Definition developer_db : JSONDB.state :=
  {| JSONDB.fn := "balloon.json";
     JSONDB.data := {[ Some "data" := {[ "enabled" := JSONDB.PBool true ]} ]};
     JSONDB.default := {[ "enabled" := JSONDB.PBool false ]};
     JSONDB.dirty := false;
     JSONDB.key := None;
     JSONDB.developer := true |}.

(** An empty database keyed by dialogue, read in developer mode while no
    line of dialogue is current, so that the key function returns
    [None]. *)
Definition dialogue_db : JSONDB.state :=
  {| JSONDB.fn := "balloon.json";
     JSONDB.data := ∅;
     JSONDB.default := {[ "enabled" := JSONDB.PBool false ]};
     JSONDB.dirty := false;
     JSONDB.key := Some None;
     JSONDB.developer := true |}.

(** The same database once the line ["start_a170b500"] is current. *)
Definition line_db : JSONDB.state :=
  {| JSONDB.fn := "balloon.json";
     JSONDB.data := ∅;
     JSONDB.default := {[ "enabled" := JSONDB.PBool false ]};
     JSONDB.dirty := false;
     JSONDB.key := Some (Some "start_a170b500");
     JSONDB.developer := true |}.

End Examples.

(** ** The tuples of a batch *)

Module Tuples.
Import Style.

(** The value the last tuple of [ts] for the slot [i] stores there. *)
Fixpoint last_write (ts : list triple) (i : nat) : option value :=
  match ts with
  | [] => None
  | (_, j, v) :: ts' =>
      match last_write ts' i with
      | Some w => Some w
      | None => if Nat.eqb j i then Some v else None
      end
  end.

(** The tuples of a batch as [expand_properties] collects them, before
    the sort. *)
Definition batch_tuples (easy : normalizer -> value -> value) (T : tables)
    (items : batch) : list triple :=
  kv ← items;
  expand_entries easy (default [] (expansions T !! kv.1)) kv.2 None.

End Tuples.

(** ** What a build changes *)

Module Frame.
Import Style.

(** [st'] is [st] with the caches of some heavy styles set anew: nothing
    else differs, no cache is removed and no light style is given one. *)
Definition only_caches_set (st st' : state) : Prop :=
  style_map st' = style_map st /\
  styles_built st' = styles_built st /\
  styles_pending st' = styles_pending st /\
  length (heap st') = length (heap st) /\
  forall a s, heap st !! a = Some s ->
    heap st' !! a = Some s \/
    (heavy s = true /\ exists c, heap st' !! a = Some (set_cache (Some c) s)).

(** Every cache there is has one cell for each slot. *)
Definition well_sized (T : tables) (st : state) : Prop :=
  forall a s c, heap st !! a = Some s -> cache s = Some c ->
    length c = property_numbers T.

(** Every slot an expansion names is a slot of the cache. *)
Definition slots_in_range (T : tables) : Prop :=
  forall k e prio slot func,
    expansions T !! k = Some e -> (prio, slot, func) ∈ e ->
    slot < property_numbers T.

(** The two together: what a build keeps, starting from [st]. *)
Definition built_from (T : tables) (st st' : state) : Prop :=
  only_caches_set st st' /\
  (slots_in_range T -> well_sized T st -> well_sized T st').

End Frame.

(** ** Slots and cells within the cache *)

Module Ranges.
Import Style.

(** The boolean form of [slots_in_range]. *)
Definition slots_in_rangeb (T : tables) : bool :=
  forallb (fun kv : string * list entry =>
             forallb (fun e : entry => Nat.ltb e.1.2 (property_numbers T)) kv.2)
          (map_to_list (expansions T)).

(** Every property under every prefix with storage has a cell in a cache
    of [property_numbers] cells. *)
Definition offsets_in_range (T : tables) : Prop :=
  forall p off P n,
    prefix_offset T !! p = Some off -> property_number T !! P = Some n ->
    off + n < property_numbers T.

Definition offsets_in_rangeb (T : tables) : bool :=
  forallb (fun po : string * nat =>
             forallb (fun pn : string * nat => Nat.ltb (po.2 + pn.2) (property_numbers T))
                     (map_to_list (property_number T)))
          (map_to_list (prefix_offset T)).

(** All the entries of the expansion [e] carry the priority [p] and the
    normaliser [f]. *)
Definition uniform (e : list entry) (p : nat) (f : option normalizer) : Prop :=
  forall entry, entry ∈ e -> entry.1.1 = p /\ entry.2 = f.

(** The cache a style is built upon when its parent, if it has one, is
    another heavy style that has a cache: all slots unset for a root, a
    copy of the cache of the parent otherwise. *)
Definition seed_ready (st : state) (a : addr) (s : style) (c0 : list value)
    (T : tables) : Prop :=
  (parent s = None /\ c0 = replicate (property_numbers T) VNone) \/
  (exists pname pa po x pc,
     parent s = Some pname /\ style_map st !! pname = Some pa /\ pa <> a /\
     heap st !! pa = Some po /\ heavy po = true /\
     cache po = Some (x :: pc) /\ c0 = x :: pc).

End Ranges.

(** ** More of the [Style] class and of the style manager *)

Module StyleMore.
Import Style.

(** [StyleManager.__getattr__(self, name)], which Python calls for the
    names that are not methods of the manager. *)
Definition StyleManager_getattr (name : string) : M state addr :=
  st <- get_state ;;
  match style_map st !! name with
  | Some a => ret a
  | None => raise (Exception_ ("The style " +:+ name +:+ " does not exist."))
  end.

(* Style.clear(self) *)
Definition clear (self : addr) : M state unit :=
  st <- get_state ;;
  if styles_built st
  then raise (Exception_ "Cannot clear a style after styles have been built.")
  else update self (set_properties []).

(* Style.take(self, other) *)
Definition take (renpy_easy : normalizer -> value -> value) (T : tables)
    (depth fuel : nat) (self other : addr) : M state unit :=
  oo <- deref other ;;
  update self (set_properties (properties oo)) ;;;
  st <- get_state ;;
  if styles_built st then build_style renpy_easy T depth fuel self else ret tt.

(* k in p *)
Definition batch_has (p : batch) (k : string) : bool :=
  existsb (fun kv : string * value => String.eqb kv.1 k) p.

(** [Style.setdefault(self, **properties)]: the keyword arguments that
    no batch of the style holds yet are appended as one batch, if there
    are any. *)
Definition setdefault (self : addr) (props : batch) : M state unit :=
  so <- deref self ;;
  let rest :=
    List.filter
      (fun kv : string * value =>
         negb (existsb (fun p => batch_has p kv.1) (properties so)))
      props in
  match rest with
  | [] => ret tt
  | _ :: _ => update self (set_properties (properties so ++ [rest]))
  end.

End StyleMore.

(** ** More of the [JSONDB] class *)

Module JSONDBMore.
Import JSONDB.

(* setdefault(key, default=None) *)
Definition setdefault (x : string) (dflt : pyval) : M state pyval :=
  k <- get_dict ;;
  d <- the_dict k ;;
  match d !! x with
  | Some v => ret v
  | None =>
      check dflt ;;;
      s <- get_state ;;
      put_state (set_dirty true s) ;;;
      put_dict k (<[x := dflt]> d) ;;;
      ret dflt
  end.

(** [__ior__(self, other)], the operator [|=]; [other] is given by its
    items. *)
Definition ior (items : list (string * pyval)) : M state unit :=
  s <- get_state ;;
  put_state (set_dirty true s) ;;;
  k <- get_dict ;;
  cur <- the_dict k ;;
  put_dict k (dict_of items ∪ cur).

End JSONDBMore.

(** ** The dictionary of the current key *)

Module Store.
Import JSONDB.

(** [get_dict] does not raise: the key is a string, or developer mode is
    off. *)
Definition guard_passes (s : state) : Prop :=
  current_key s = None -> developer s = false.

(** The dictionary the operations work on: the one stored under the
    current key, or the default one when there is none yet. *)
Definition stored (s : state) : gmap string pyval :=
  from_option id (JSONDB.default s) (data s !! current_key s).

(** The state once the dictionary of the current key is in the data. *)
Definition touched (s : state) : state :=
  set_data (<[current_key s := stored s]> (data s)) s.

(** The state with [d] as the dictionary of the current key. *)
Definition with_stored (d : gmap string pyval) (s : state) : state :=
  set_data (<[current_key s := d]> (data s)) s.

(** [s'] differs from [s] at most in the dirty flag and the dictionary of
    the current key. *)
Definition confined (s s' : state) : Prop :=
  fn s' = fn s /\ JSONDB.default s' = JSONDB.default s /\
  key s' = key s /\ developer s' = developer s /\
  forall k, k <> current_key s -> data s' !! k = data s !! k.

(** Whatever way [c] ends, [R] relates the state it started from and the
    state it ended in. *)
Definition always {A} (R : state -> state -> Prop) (c : M state A) : Prop :=
  forall s, match c s with
            | Ok _ s' => R s s'
            | Raise _ s' => R s s'
            | OutOfFuel => False
            end.

End Store.

(** ** The tables as [init] leaves them *)

Module Cells.
Import Style Ranges.

(** The cell of every property under every prefix that has storage. *)
Definition cells (T : tables) : list (string * string * nat) :=
  po ← map_to_list (prefix_offset T);
  pn ← map_to_list (property_number T);
  [(po.1, pn.1, po.2 + pn.2)].

Fixpoint distinctb (l : list nat) : bool :=
  match l with
  | [] => true
  | x :: l' => negb (existsb (Nat.eqb x) l') && distinctb l'
  end.

Definition same_normalizer (f g : option normalizer) : bool :=
  match f, g with
  | None, None => true
  | Some easy_displayable, Some easy_displayable => true
  | Some easy_color, Some easy_color => true
  | _, _ => false
  end.

(** For the prefix rule [q -> (prio, alts)] and the property [P] with
    the normaliser [func]: the name [q + P] has an expansion, all of its
    entries carry [prio] and [func], and one of them is the cell of [P]
    under each prefix of [alts]. *)
Definition fans_out (T : tables) (q : string) (prio : nat) (alts : list string)
    (P : string) (func : option normalizer) : Prop :=
  exists n e,
    property_number T !! P = Some n /\
    expansions T !! (q +:+ P) = Some e /\
    uniform e prio func /\
    forall p, p ∈ alts ->
      exists off, prefix_offset T !! p = Some off /\ (prio, off + n, func) ∈ e.

Definition fans_outb (T : tables) (q : string) (prio : nat) (alts : list string)
    (P : string) (func : option normalizer) : bool :=
  match property_number T !! P, expansions T !! (q +:+ P) with
  | Some n, Some e =>
      forallb (fun x : entry => Nat.eqb x.1.1 prio && same_normalizer x.2 func) e &&
      forallb (fun p =>
                 match prefix_offset T !! p with
                 | Some off => existsb (fun x : entry => Nat.eqb x.1.2 (off + n)) e
                 | None => false
                 end) alts
  | _, _ => false
  end.

(** [fans_outb] for every rule of the registry and every property. *)
Definition all_fan_out (R : registry) (T : tables) : bool :=
  forallb (fun qa : string * (nat * list string) =>
             forallb (fun Pf : string * option normalizer =>
                        fans_outb T qa.1 qa.2.1 qa.2.2 Pf.1 Pf.2)
                     style_properties)
          (map_to_list (prefix_subs R)).

End Cells.

(** ** More configurations *)

Module MoreExamples.
Import Style Examples.

(** ["default"] with [xpos = 1] and its child ["button"], which has no
    property of its own; nothing is built yet. *)
Definition family : M state unit :=
  create plain loaded 1000 1000 "default" ParentNone ;;;
  d <- style_map_get "default" ;;
  setter plain loaded 1000 1000 d "xpos" (VInt 1) ;;;
  create plain loaded 1000 1000 "button" (ParentName "default").


(** Two root styles, ["a"] with [xpos = 1] and ["b"] with [ypos = 2]. *)
Definition two_roots : M state unit :=
  create plain loaded 1000 1000 "a" ParentNone ;;;
  a <- style_map_get "a" ;;
  setter plain loaded 1000 1000 a "xpos" (VInt 1) ;;;
  create plain loaded 1000 1000 "b" ParentNone ;;;
  b <- style_map_get "b" ;;
  setter plain loaded 1000 1000 b "ypos" (VInt 2).

End MoreExamples.

(** * Properties *)

(** Unfolding of the monad's plumbing. *)
Ltac monad := unfold bind, ret, raise, get_state, put_state, Style.modify in *.

Section StyleFacts.

Import Style Props.

Variable renpy_easy : normalizer -> value -> value.
Variable T : tables.

(** *** The global build runs once per pending list *)

Lemma build_styles_clears_pending depth fuel st st' :
  build_styles renpy_easy T depth fuel st = Ok tt st' ->
  styles_pending st' = None /\ styles_built st' = true.
Proof.
  unfold build_styles. monad.
  destruct (styles_pending st) as [pending|]; [|discriminate].
  destruct (for_each pending (build_style renpy_easy T depth fuel) st)
    as [[] s1| |]; try discriminate.
  intros [= <-]. split; reflexivity.
Qed.

(** C4, as amended: when a call of [build_styles] returns, it has set
    [styles_pending] to [None], so a second call with no mutation in
    between raises [TypeError] and leaves the state, every cache included,
    as the first call produced it.  The second call does not succeed. *)
Theorem build_styles_twice depth fuel depth' fuel' st st' :
  build_styles renpy_easy T depth fuel st = Ok tt st' ->
  build_styles renpy_easy T depth' fuel' st'
  = Raise (TypeError "'NoneType' object is not iterable") st'.
Proof.
  intros H. apply build_styles_clears_pending in H as [Hp _].
  unfold build_styles. monad. rewrite Hp. reflexivity.
Qed.


(** *** [rebuild] *)

Lemma heavy_styles_spec vals st :
  (forall a, a ∈ vals -> is_Some (heap st !! a)) ->
  exists l, heavy_styles vals st = Ok l st /\
    forall a, a ∈ l <-> a ∈ vals /\ exists s, heap st !! a = Some s /\ heavy s = true.
Proof.
  induction vals as [|i rest IH]; intros Hv.
  - exists []. split; [reflexivity|]. intros a. split.
    + intros Ha. inversion Ha.
    + intros [Ha _]. inversion Ha.
  - destruct IH as (l & Hl & Hiff).
    { intros a Ha. apply Hv. by right. }
    destruct (Hv i) as [so Hso]; [by left|].
    exists (if heavy so then i :: l else l). split.
    + cbn [heavy_styles]. unfold bind at 1. unfold deref. rewrite Hso.
      unfold bind. rewrite Hl. reflexivity.
    + intros a. rewrite elem_of_cons. destruct (heavy so) eqn:Hh.
      * rewrite elem_of_cons, Hiff. split.
        -- intros [->|[Ha Hs]]; [split; [by left|by exists so]|]. split; [by right|done].
        -- intros [[->|Ha] Hs]; [by left|]. right. done.
      * rewrite Hiff. split.
        -- intros [Ha Hs]. split; [by right|done].
        -- intros [[->|Ha] Hs]; [|done].
           destruct Hs as (s & Hs & Hhs). congruence.
Qed.

(** C2, on the code: as soon as [style_map] holds one heavy style,
    [rebuild] raises [AttributeError] at its first [i.__dict__], having
    only cleared [styles_built]: no cache is reset, the global
    [styles_pending] is not assigned and the global build is not run. *)
Theorem rebuild_raises depth fuel st k a s :
  valid_map st ->
  style_map st !! k = Some a ->
  heap st !! a = Some s ->
  heavy s = true ->
  rebuild renpy_easy T depth fuel st
  = Raise (AttributeError "'Style' object has no attribute '__dict__'")
          (set_styles_built false st).
Proof.
  intros Hvalid Hk Ha Hheavy. unfold rebuild.
  destruct (heavy_styles_spec (snd <$> map_to_list (style_map st)) st)
    as (l & Hl & Hiff).
  { intros b Hb. apply list_elem_of_fmap in Hb as ([k' b'] & -> & Hb).
    apply elem_of_map_to_list in Hb. by eapply Hvalid. }
  assert (Hin : a ∈ l).
  { apply Hiff. split; [|by exists s].
    apply list_elem_of_fmap. exists (k, a). split; [done|].
    by apply elem_of_map_to_list. }
  monad. rewrite Hl. destruct l as [|i l]; [inversion Hin|]. reflexivity.
Qed.


(** *** The walk along parent names *)

Lemma ancestor_add st m n a :
  ancestor st (m + n) a = ancestor st m a ≫= ancestor st n.
Proof.
  revert a. induction m as [|m IH]; intros a; [reflexivity|].
  cbn [Nat.add ancestor]. destruct (parent_of st a) as [b|]; [|reflexivity].
  cbn. apply IH.
Qed.

Lemma light_cycle_all st c :
  on_light_cycle st c ->
  forall m, exists b, ancestor st m c = Some b /\ light_at st b.
Proof.
  intros (k & Hloop & Hlight) m.
  induction m as [m IH] using lt_wf_ind.
  destruct (le_lt_dec m k) as [Hle|Hgt]; [by apply Hlight|].
  replace m with (S k + (m - S k)) by lia.
  rewrite ancestor_add, Hloop. cbn [mbind option_bind].
  apply IH. lia.
Qed.

Lemma leads_to_light_cycle_all st a :
  leads_to_light_cycle st a ->
  forall n, exists b, ancestor st (S n) a = Some b /\ light_at st b.
Proof.
  intros (j & c & Hc & Hpre & Hcyc) n.
  destruct (le_lt_dec (S n) j) as [Hle|Hgt]; [apply Hpre; lia|].
  replace (S n) with (S j + (n - j)) by lia.
  rewrite ancestor_add, Hc. cbn [mbind option_bind].
  by apply light_cycle_all.
Qed.

Lemma parent_of_Some st b c :
  parent_of st b = Some c ->
  exists so pname,
    heap st !! b = Some so /\ parent so = Some pname /\
    style_map st !! pname = Some c.
Proof.
  unfold parent_of. intros H.
  destruct (heap st !! b) as [so|]; [|discriminate]. cbn in H.
  destruct (parent so) as [pname|] eqn:Hp; [|discriminate]. cbn in H.
  by exists so, pname.
Qed.

Lemma walk_never_stops fuel style_parent b acc st :
  (forall n, exists c, ancestor st (S n) b = Some c /\ light_at st c) ->
  walk fuel style_parent b acc st = OutOfFuel.
Proof.
  revert b acc. induction fuel as [|fuel IH]; intros b acc Hall;
    [reflexivity|].
  destruct (Hall 0) as (c & Hc & po & Hpo & Hlight).
  cbn [ancestor] in Hc.
  destruct (parent_of st b) as [c'|] eqn:Hpar; [|discriminate].
  cbn in Hc. injection Hc as ->.
  destruct (parent_of_Some _ _ _ Hpar) as (so & pname & Hso & Hparent & Hpa).
  cbn [walk]. monad. unfold deref. rewrite Hso, Hparent, Hpa, Hpo, Hlight.
  apply IH. intros n. destruct (Hall (S n)) as (d & Hd & Hl).
  exists d. split; [|done].
  change (ancestor st (S (S n)) b) with (parent_of st b ≫= ancestor st (S n)) in Hd.
  rewrite Hpar in Hd. exact Hd.
Qed.

(** A heavy style whose ancestors are light styles without end: the
    walk uses up any fuel. *)
Lemma build_style_never_ends depth fuel st a s :
  heap st !! a = Some s ->
  heavy s = true ->
  (forall n, exists c, ancestor st (S n) a = Some c /\ light_at st c) ->
  build_style renpy_easy T (S depth) fuel a st = OutOfFuel.
Proof.
  intros Ha Hheavy Hall. cbn [build_style]. monad. unfold deref.
  rewrite Ha, Hheavy. cbn [negb].
  by rewrite walk_never_stops.
Qed.

(** A light style is left alone, whatever its parent chain. *)
Lemma build_style_light depth fuel st a s :
  heap st !! a = Some s ->
  heavy s = false ->
  build_style renpy_easy T (S depth) fuel a st = Ok tt st.
Proof.
  intros Ha Hlight. cbn [build_style]. monad. unfold deref.
  rewrite Ha, Hlight. reflexivity.
Qed.

(** C1, as amended: [build_style] keeps no record of the styles it has
    visited and reports no cycle.  On a style whose parent chain runs
    through light styles into a cycle of light styles, a heavy style makes
    the walk run for ever (it is still running whatever number of
    iterations it is given, and no error is raised), and a light style
    makes the call return at once without an error. *)
Theorem build_style_light_cycle_diverges depth fuel st a s :
  heap st !! a = Some s ->
  leads_to_light_cycle st a ->
  build_style renpy_easy T (S depth) fuel a st
  = if heavy s then OutOfFuel else Ok tt st.
Proof.
  intros Ha Hcyc. destruct (heavy s) eqn:Hheavy.
  - eapply build_style_never_ends; [done|done|].
    by apply leads_to_light_cycle_all.
  - by eapply build_style_light.
Qed.

(** A cycle through a heavy style is not reported either: a heavy style
    without cache that is its own parent makes [build_style] call itself
    until the interpreter runs out of frames. *)
Lemma build_style_heavy_self_parent depth fuel st a s pname :
  heap st !! a = Some s ->
  heavy s = true ->
  parent s = Some pname ->
  style_map st !! pname = Some a ->
  cache_unset (cache s) = true ->
  build_style renpy_easy T depth (S fuel) a st
  = Raise (RuntimeError "maximum recursion depth exceeded") st.
Proof.
  intros Ha Hheavy Hparent Hname Hcache.
  induction depth as [|depth IH]; [reflexivity|].
  assert (Hwalk : walk (S fuel) (parent s) a [] st = Ok ([a], Some a) st).
  { cbn [walk]. monad. unfold deref. by rewrite Ha, Hparent, Hname, Ha, Hheavy. }
  cbn [build_style]. monad. unfold deref at 1. rewrite Ha, Hheavy. cbn [negb].
  rewrite Hwalk. cbn [snd]. unfold deref at 1. rewrite Ha, Hcache, IH.
  reflexivity.
Qed.

(** *** What a build can change *)

Lemma same_but_caches_refl st : same_but_caches st st.
Proof.
  repeat split. intros a s Hs. exists (cache s). by destruct s.
Qed.

Lemma same_but_caches_trans st1 st2 st3 :
  same_but_caches st1 st2 -> same_but_caches st2 st3 -> same_but_caches st1 st3.
Proof.
  intros (Hm & Hb & Hp & Hl & Hh) (Hm' & Hb' & Hp' & Hl' & Hh').
  repeat split; try congruence.
  intros a s Hs. destruct (Hh a s Hs) as (c & Hc).
  destruct (Hh' a _ Hc) as (c' & Hc'). exists c'. by rewrite Hc'.
Qed.

Lemma keeps_ret {A} (x : A) : keeps same_but_caches (ret x).
Proof. intros st. apply same_but_caches_refl. Qed.

Lemma keeps_raise {A} e : keeps same_but_caches (@raise state A e).
Proof. intros st. apply same_but_caches_refl. Qed.

Lemma keeps_bind {A B} (c : M state A) (k : A -> M state B) :
  keeps same_but_caches c ->
  (forall x, keeps same_but_caches (k x)) ->
  keeps same_but_caches (bind c k).
Proof.
  intros Hc Hk st. unfold bind. specialize (Hc st).
  destruct (c st) as [x s1|e s1|]; [|done|done].
  specialize (Hk x s1). destruct (k x s1); [| |done];
    by eapply same_but_caches_trans.
Qed.

Lemma keeps_deref a : keeps same_but_caches (deref a).
Proof.
  intros st. unfold deref. destruct (heap st !! a); apply same_but_caches_refl.
Qed.

Lemma keeps_get_state : keeps same_but_caches get_state.
Proof. intros st. apply same_but_caches_refl. Qed.

Lemma keeps_update_cache a c : keeps same_but_caches (update a (set_cache c)).
Proof.
  intros st. unfold update. destruct (heap st !! a) as [s|] eqn:Hs;
    [|apply same_but_caches_refl].
  repeat split; cbn; [by rewrite length_insert|].
  intros b sb Hb. destruct (decide (a = b)) as [->|Hne].
  - exists c. rewrite list_lookup_insert_eq; [congruence|].
    by eapply lookup_lt_Some.
  - exists (cache sb). rewrite list_lookup_insert_ne by done.
    rewrite Hb. by destruct sb.
Qed.

Lemma keeps_walk fuel style_parent s acc :
  keeps same_but_caches (walk fuel style_parent s acc).
Proof.
  revert s acc. induction fuel as [|fuel IH]; intros s acc; [by intros st|].
  cbn [walk]. apply keeps_bind; [apply keeps_deref|]. intros so.
  destruct (parent so) as [pname|]; [|apply keeps_ret].
  apply keeps_bind; [apply keeps_get_state|]. intros st.
  destruct (style_map st !! pname) as [pa|]; [|apply keeps_raise].
  apply keeps_bind; [apply keeps_deref|]. intros po.
  destruct (heavy po); [apply keeps_ret|apply IH].
Qed.

Lemma keeps_replay_styles light_styles c :
  keeps same_but_caches (replay_styles renpy_easy T light_styles c).
Proof.
  revert c. induction light_styles as [|s rest IH]; intros c;
    [apply keeps_ret|].
  cbn [replay_styles]. apply keeps_bind; [apply keeps_deref|]. intros so.
  destruct (replay_batches renpy_easy T (properties so) c);
    [apply keeps_raise|apply IH].
Qed.

(** However it ends, [build_style] has changed nothing but caches. *)
Lemma keeps_build_style depth fuel a :
  keeps same_but_caches (build_style renpy_easy T depth fuel a).
Proof.
  revert a. induction depth as [|depth IH]; intros a; [apply keeps_raise|].
  cbn [build_style]. apply keeps_bind; [apply keeps_deref|]. intros so.
  destruct (negb (heavy so)); [apply keeps_ret|].
  apply keeps_bind; [apply keeps_walk|]. intros found.
  apply keeps_bind; [|intros c; apply keeps_bind;
    [apply keeps_replay_styles|intros c'; apply keeps_update_cache]].
  destruct (found.2) as [pa|]; [|apply keeps_ret].
  apply keeps_bind; [apply keeps_deref|]. intros po.
  apply keeps_bind.
  { destruct (cache_unset (cache po)); [apply IH|apply keeps_ret]. }
  intros _. apply keeps_bind; [apply keeps_deref|]. intros po'.
  destruct (cache po'); [apply keeps_ret|apply keeps_raise].
Qed.


(** *** [create] *)

Lemma create_returns depth fuel st name pname st' :
  create renpy_easy T depth fuel name (named pname) st = Ok tt st' ->
  style_map st' = <[name := length (heap st)]> (style_map st) /\
  exists off c,
    prefix_offset T !! "insensitive_" = Some off /\
    heap st' !! length (heap st) = Some (created off name pname c).
Proof.
  unfold create, Style_init, prefix_offset_get.
  destruct (prefix_offset T !! "insensitive_") as [off|] eqn:Hoff;
    [|by monad].
  set (obj := {| cache := None; properties := []; offset := off;
                 prefix := "insensitive_"; heavy := true; name := None;
                 parent := pname |}).
  set (st1 := set_heap (heap st ++ [obj]) st).
  assert (Hobj : heap st1 !! length (heap st) = Some obj).
  { cbn. by rewrite lookup_app_r, Nat.sub_diag. }
  intros H.
  assert (exists st2, style_map st2 = style_map st1 /\
            (exists c, heap st2 !! length (heap st) = Some (set_cache c obj)) /\
            update (length (heap st)) (set_name (Some name))
              (set_style_map (<[name := length (heap st)]> (style_map st2)) st2)
            = Ok tt st') as (st2 & Hsame & [c Hc] & Hupd).
  { destruct pname as [n|]; monad; cbn in H; fold obj st1 in H.
    all: destruct (styles_built st) eqn:Hbuilt.
    all: try (pose proof (keeps_build_style depth fuel (length (heap st)) st1) as Hk;
              destruct (build_style renpy_easy T depth fuel (length (heap st)) st1)
                as [[] st2|e st2|]; try discriminate;
              exists st2; split; [apply Hk|]; split;
                [destruct Hk as (_ & _ & _ & _ & Hh); by apply Hh|exact H]).
    all: unfold pending_append in H; monad; cbn in H;
         destruct (styles_pending st) as [l|]; try discriminate;
         exists (set_styles_pending (Some (l ++ [length (heap st)])) st1);
         split; [done|split; [exists None; exact Hobj|exact H]]. }
  rename Hsame into Hm.
  unfold update in Hupd. cbn in Hupd. rewrite Hc in Hupd.
  injection Hupd as <-. cbn. split; [by rewrite Hm|].
  exists off, c. split; [done|].
  rewrite list_lookup_insert_eq; [done|]. by eapply lookup_lt_Some.
Qed.


Lemma create_before_build depth fuel st name pname off pending :
  prefix_offset T !! "insensitive_" = Some off ->
  styles_built st = false ->
  styles_pending st = Some pending ->
  exists st', create renpy_easy T depth fuel name (named pname) st = Ok tt st'.
Proof.
  intros Hoff Hbuilt Hpending.
  unfold create, Style_init, prefix_offset_get, pending_append. rewrite Hoff.
  destruct pname as [n|]; monad; cbn; rewrite Hbuilt; cbn; rewrite Hpending; cbn.
  all: unfold update; cbn; rewrite lookup_app_r, Nat.sub_diag by done; cbn.
  all: by eexists.
Qed.

(** C5, as amended: [create] makes no test on the name.  When [name] is
    already registered, every call that returns has bound [name] to a
    newly allocated heavy style with no properties, which replaces the
    registered one in [style_map]; and before the styles are built the
    call does return. *)
Theorem create_replaces depth fuel st name pname a :
  style_map st !! name = Some a ->
  a < length (heap st) ->
  (forall st',
     create renpy_easy T depth fuel name (named pname) st = Ok tt st' ->
     style_map st' !! name = Some (length (heap st)) /\
     style_map st' !! name <> Some a /\
     exists off c,
       heap st' !! length (heap st) = Some (created off name pname c)) /\
  (is_Some (prefix_offset T !! "insensitive_") ->
   styles_built st = false ->
   is_Some (styles_pending st) ->
   exists st', create renpy_easy T depth fuel name (named pname) st = Ok tt st').
Proof.
  intros Ha Hlt. split.
  - intros st' H. apply create_returns in H as (Hm & off & c & _ & Hc).
    rewrite Hm, lookup_insert_eq. split; [done|]. split.
    + intros [= E]. lia.
    + by exists off, c.
  - intros [off Hoff] Hbuilt [pending Hpending].
    by eapply create_before_build.
Qed.


(** *** [backup] and [restore] *)

Lemma restore_loop items : forall st l0,
  NoDup items.*1 ->
  (forall k v, (k, v) ∈ items ->
     exists a, style_map st !! k = Some a /\ a < length (heap st)) ->
  (forall k1 v1 k2 v2 a, (k1, v1) ∈ items -> (k2, v2) ∈ items ->
     style_map st !! k1 = Some a -> style_map st !! k2 = Some a -> k1 = k2) ->
  styles_pending st = Some l0 ->
  exists st',
    for_each items restore_body st = Ok tt st' /\
    style_map st' = style_map st /\
    styles_built st' = styles_built st /\
    styles_pending st'
      = Some (l0 ++ omap (fun kv => style_map st !! kv.1) items) /\
    length (heap st') = length (heap st) /\
    forall a s, heap st !! a = Some s ->
      (exists ps, heap st' !! a = Some (set_properties ps s)) /\
      (forall k v, (k, v) ∈ items -> style_map st !! k = Some a ->
         heap st' !! a = Some (set_properties v s)) /\
      ((forall k v, (k, v) ∈ items -> style_map st !! k <> Some a) ->
         heap st' !! a = Some s).
Proof.
  induction items as [|[k v] rest IH]; intros st l0 Hnodup Hreg Hinj Hpend.
  - exists st. cbn. rewrite app_nil_r. repeat split; try done.
    + exists (properties s). rewrite H. by destruct s.
    + intros k v Hin. inversion Hin.
  - destruct (Hreg k v) as (a0 & Ha0 & Hlt); [by left|].
    destruct (lookup_lt_is_Some_2 _ _ Hlt) as [s0 Hs0].
    cbn [fmap list_fmap fst] in Hnodup. apply NoDup_cons in Hnodup as [Hk Hnodup].
    set (st1 := set_styles_pending (Some (l0 ++ [a0]))
                  (set_heap (<[a0 := set_properties v s0]> (heap st)) st)).
    destruct (IH st1 (l0 ++ [a0])) as (st' & Hrun & Hm & Hb & Hp & Hl & Hh).
    { done. }
    { intros k' v' Hin. cbn. rewrite length_insert. apply (Hreg k' v'). by right. }
    { intros k1 v1 k2 v2 a H1 H2. cbn. apply (Hinj k1 v1 k2 v2 a); by right. }
    { done. }
    exists st'. split.
    { cbn [for_each]. unfold restore_body at 1, style_map_get, pending_append, update.
      monad. cbn. rewrite Ha0, Hs0. cbn. rewrite Ha0.
      cbn [styles_pending set_heap]. rewrite Hpend. exact Hrun. }
    split; [by rewrite Hm|]. split; [by rewrite Hb|]. split.
    { rewrite Hp. cbn [omap list_omap]. cbn. rewrite Ha0.
      by rewrite <- app_assoc. }
    split; [by rewrite Hl; cbn; rewrite length_insert|].
    intros a s Hs. destruct (decide (a = a0)) as [->|Hne].
    + assert (s = s0) as -> by congruence.
      assert (Hrest : forall k' v', (k', v') ∈ rest -> style_map st !! k' <> Some a0).
      { intros k' v' Hin Hk'. apply Hk.
        assert (k' = k) as <-.
        { apply (Hinj k' v' k v a0); [by right|by left|done|done]. }
        apply list_elem_of_fmap. by exists (k', v'). }
      destruct (Hh a0 (set_properties v s0)) as (_ & _ & Hkeep).
      { cbn. rewrite list_lookup_insert_eq; [done|]. by rewrite <- (lookup_lt_is_Some). }
      specialize (Hkeep Hrest). split; [by exists v|]. split.
      * intros k' v' Hin Hk'. apply elem_of_cons in Hin as [[= -> ->]|Hin];
          [done|]. by destruct (Hrest k' v' Hin).
      * intros Hnone. by destruct (Hnone k v); [left|].
    + destruct (Hh a s) as (Hps & Hset & Hkeep).
      { cbn. by rewrite list_lookup_insert_ne. }
      split; [done|]. split.
      * intros k' v' Hin Hk'. apply elem_of_cons in Hin as [[= -> ->]|Hin];
          [congruence|]. by apply (Hset k' v').
      * intros Hnone. apply Hkeep. intros k' v' Hin. apply (Hnone k' v').
        by right.
Qed.

(** C3, as amended: [restore(o)] replaces the raw properties of each
    style [o] names by the list of [o], makes [styles_pending] the list of
    exactly those styles and clears [styles_built]; it runs no build, so
    every style keeps the cache it had, and the styles [o] does not name
    are left as they were. *)
Theorem restore_defers_build o st :
  names_registered st o ->
  exists st' pending,
    restore o st = Ok tt st' /\
    style_map st' = style_map st /\
    styles_built st' = false /\
    styles_pending st' = Some pending /\
    (forall a, a ∈ pending <->
       exists k, is_Some (o !! k) /\ style_map st !! k = Some a) /\
    forall a s, heap st !! a = Some s ->
      (exists ps, heap st' !! a = Some (set_properties ps s)) /\
      (forall k v, o !! k = Some v -> style_map st !! k = Some a ->
         heap st' !! a = Some (set_properties v s)) /\
      ((forall k, is_Some (o !! k) -> style_map st !! k <> Some a) ->
         heap st' !! a = Some s).
Proof.
  intros [Hreg Hinj].
  set (st0 := set_styles_built false (set_styles_pending (Some []) st)).
  destruct (restore_loop (map_to_list o) st0 []) as
    (st' & Hrun & Hm & Hb & Hp & Hl & Hh).
  { apply NoDup_fst_map_to_list. }
  { intros k v Hin. apply elem_of_map_to_list in Hin. apply Hreg. by exists v. }
  { intros k1 v1 k2 v2 a H1 H2. apply elem_of_map_to_list in H1, H2.
    apply Hinj; by eexists. }
  { done. }
  exists st', (omap (fun kv => style_map st !! kv.1) (map_to_list o)).
  split; [exact Hrun|]. split; [done|]. split; [done|]. split; [done|]. split.
  - intros a. rewrite list_elem_of_omap. split.
    + intros ([k v] & Hin & Hk). apply elem_of_map_to_list in Hin.
      exists k. split; [by exists v|done].
    + intros (k & [v Hv] & Hk). exists (k, v). split; [|done].
      by apply elem_of_map_to_list.
  - intros a s Hs. destruct (Hh a s Hs) as (Hps & Hset & Hkeep).
    split; [done|]. split.
    + intros k v Hv Hk. apply (Hset k v); [|done]. by apply elem_of_map_to_list.
    + intros Hnone. apply Hkeep. intros k v Hin. apply Hnone.
      apply elem_of_map_to_list in Hin. by exists v.
Qed.


Lemma backup_items_spec items : forall rv st,
  (forall k a, (k, a) ∈ items -> is_Some (heap st !! a)) ->
  exists o, backup_items items rv st = Ok o st /\
    forall k, is_Some (o !! k) <-> is_Some (rv !! k) \/ k ∈ items.*1.
Proof.
  induction items as [|[k a] rest IH]; intros rv st Hv.
  - exists rv. split; [done|]. intros k. split; [by left|].
    intros [H|H]; [done|inversion H].
  - destruct (Hv k a) as [so Hso]; [by left|].
    destruct (IH (<[k := properties so]> rv) st) as (o & Ho & Hdom).
    { intros k' a' Hin. apply (Hv k' a'). by right. }
    exists o. split.
    + cbn [backup_items]. monad. unfold deref. by rewrite Hso.
    + intros k'. rewrite Hdom. cbn [fmap list_fmap fst]. rewrite elem_of_cons.
      rewrite lookup_insert_is_Some. destruct (decide (k = k')) as [->|Hne].
      * split; [by intros _; right; left|]. intros _. left. by left.
      * split.
        -- intros [[E|[_ H]]|H]; [done|by left|by right; right].
        -- intros [H|[E|H]]; [by left; right|congruence|by right].
Qed.

(** A snapshot taken by [backup()] names registered styles. *)
Lemma backup_names_registered st :
  valid_map st ->
  distinct_styles st ->
  exists o, backup st = Ok o st /\ names_registered st o.
Proof.
  intros Hvalid Hdist. unfold backup. monad.
  destruct (backup_items_spec (map_to_list (style_map st)) ∅ st) as (o & Ho & Hdom).
  { intros k a Hin. apply elem_of_map_to_list in Hin. by eapply Hvalid. }
  exists o. split; [done|].
  assert (Hreg : forall k, is_Some (o !! k) -> is_Some (style_map st !! k)).
  { intros k Hk. apply Hdom in Hk as [[? Hk]|Hk]; [by rewrite lookup_empty in Hk|].
    apply list_elem_of_fmap in Hk as ([k' a] & -> & Hin).
    apply elem_of_map_to_list in Hin. by exists a. }
  split.
  - intros k Hk. destruct (Hreg k Hk) as [a Ha]. exists a. split; [done|].
    apply lookup_lt_is_Some. by eapply Hvalid.
  - intros k1 k2 a _ _. apply Hdist.
Qed.

End StyleFacts.

(** ** The claims at concrete configurations *)

(** Conjunctions of closed equations, each settled by evaluation. *)
Ltac by_computation :=
  repeat match goal with |- _ /\ _ => split end;
  vm_compute; reflexivity.

Section Concrete.

Import Style Props Examples.

Lemma cyclic_state_leads : leads_to_light_cycle cyclic_state 0.
Proof.
  exists 0, 1. split; [reflexivity|]. split; [intros i Hi; lia|].
  exists 0. split; [reflexivity|]. intros i Hi.
  assert (i = 0) as -> by lia. exists 1. split; [reflexivity|].
  eexists. split; reflexivity.
Qed.

(** The theorem on light cycles applies to [cyclic_state]. *)
Lemma build_style_light_cycle_diverges_witness :
  leads_to_light_cycle cyclic_state 0 /\
  build_style plain loaded 1000 1000 0 cyclic_state = OutOfFuel.
Proof.
  split; [exact cyclic_state_leads|].
  exact (build_style_light_cycle_diverges plain loaded 999 1000 cyclic_state 0
           cyclic_h eq_refl cyclic_state_leads).
Defined.

(** C1, as stated, fails on [cyclic_state]: with a thousand frames of
    stack, no number of iterations makes [build_style] end, be it with a
    result or with an error. *)
Lemma build_style_cycle_not_reported :
  ~ exists fuel r,
      build_style plain loaded 1000 fuel 0 cyclic_state = r /\ r <> OutOfFuel.
Proof.
  intros (fuel & r & Hr & Hne). apply Hne. rewrite <- Hr.
  eapply (build_style_never_ends plain loaded 999 fuel cyclic_state 0);
    [reflexivity|reflexivity|].
  apply leads_to_light_cycle_all. exact cyclic_state_leads.
Qed.

(** The cycle [create("a", "a")] makes is not reported as such either:
    the global build ends with the interpreter's recursion error. *)
Lemma self_parent_overflows :
  raised (build_styles plain loaded 1000 1000 (state_after self_parent reset))
  = Some (RuntimeError "maximum recursion depth exceeded").
Proof. vm_compute. reflexivity. Qed.


Lemma root_with_valid b : valid_map (root_with b).
Proof.
  intros k a H. cbn [style_map root_with] in H.
  apply lookup_singleton_Some in H as [_ <-]. by eexists.
Qed.

(** [rebuild_raises] applies to a registry of one heavy style. *)
Lemma rebuild_raises_witness :
  rebuild plain loaded 1000 1000 (root_with [])
  = Raise (AttributeError "'Style' object has no attribute '__dict__'")
          (set_styles_built false (root_with [])).
Proof.
  eapply (rebuild_raises plain loaded 1000 1000 (root_with []) "a" 0);
    [apply root_with_valid|reflexivity|reflexivity|reflexivity].
Defined.

Lemma root_with_names b ps :
  names_registered (root_with b) {[ "a" := ps ]}.
Proof.
  split.
  - intros k [v Hk]. apply lookup_singleton_Some in Hk as [<- _].
    exists 0. split; [reflexivity|cbn; lia].
  - intros k1 k2 a [v1 H1] [v2 H2] _ _.
    apply lookup_singleton_Some in H1 as [<- _].
    by apply lookup_singleton_Some in H2 as [<- _].
Qed.

(** [restore_defers_build] applies to a snapshot of one style. *)
Lemma restore_defers_build_witness :
  exists st' pending,
    restore {[ "a" := [[("xpos", VInt 0)]] ]} (root_with []) = Ok tt st' /\
    style_map st' = style_map (root_with []) /\
    styles_built st' = false /\
    styles_pending st' = Some pending /\
    (forall a, a ∈ pending <->
       exists k, is_Some (({[ "a" := [[("xpos", VInt 0)]] ]} : gmap string (list batch)) !! k) /\
                 style_map (root_with []) !! k = Some a) /\
    forall a s, heap (root_with []) !! a = Some s ->
      (exists ps, heap st' !! a = Some (set_properties ps s)) /\
      (forall k v, ({[ "a" := [[("xpos", VInt 0)]] ]} : gmap string (list batch)) !! k = Some v ->
         style_map (root_with []) !! k = Some a ->
         heap st' !! a = Some (set_properties v s)) /\
      ((forall k, is_Some (({[ "a" := [[("xpos", VInt 0)]] ]} : gmap string (list batch)) !! k) ->
          style_map (root_with []) !! k <> Some a) ->
         heap st' !! a = Some s).
Proof.
  apply (restore_defers_build {[ "a" := [[("xpos", VInt 0)]] ]} (root_with [])).
  apply root_with_names.
Defined.

(** C3, as stated, fails in [restore_scenario]: after [restore] has
    returned, the raw properties of ["default"] are the restored ones
    ([xpos = 0]) while its cache still reads [xpos = 5]; the style is
    pending and no build has run. *)
Lemma restore_leaves_stale_cache :
  returned (restore_observation reset)
  = Some (VInt 5, [[("xpos", VInt 0)]], Some [0], false).
Proof. vm_compute. reflexivity. Qed.

(** [build_styles_twice] applies to the first build of one style. *)
Lemma build_styles_twice_witness :
  build_styles plain loaded 1000 1000
    (state_after (build_styles plain loaded 1000 1000) (root_with []))
  = Raise (TypeError "'NoneType' object is not iterable")
      (state_after (build_styles plain loaded 1000 1000) (root_with [])).
Proof.
  apply (build_styles_twice plain loaded 1000 1000 1000 1000 (root_with [])).
  vm_compute. reflexivity.
Defined.

(** C4, as stated, fails on a registry of one style: the first
    [build_styles()] returns and the second one raises. *)
Lemma second_build_styles_raises :
  returned (build_styles plain loaded 1000 1000 (root_with [])) = Some tt /\
  raised ((build_styles plain loaded 1000 1000 ;;;
           build_styles plain loaded 1000 1000) (root_with []))
  = Some (TypeError "'NoneType' object is not iterable").
Proof. by_computation. Qed.

(** [create_replaces] applies to a second [create("default", None)]. *)
Lemma create_replaces_witness :
  (forall st',
     create plain loaded 1000 1000 "default" (named None)
       (state_after one_style reset) = Ok tt st' ->
     style_map st' !! "default" = Some (length (heap (state_after one_style reset))) /\
     style_map st' !! "default" <> Some 0 /\
     exists off c,
       heap st' !! length (heap (state_after one_style reset))
       = Some (created off "default" None c)) /\
  (is_Some (prefix_offset loaded !! "insensitive_") ->
   styles_built (state_after one_style reset) = false ->
   is_Some (styles_pending (state_after one_style reset)) ->
   exists st', create plain loaded 1000 1000 "default" (named None)
                 (state_after one_style reset) = Ok tt st').
Proof.
  apply (create_replaces plain loaded 1000 1000 (state_after one_style reset)
           "default" None 0).
  - vm_compute. reflexivity.
  - vm_compute. lia.
Defined.

(** C5, as stated, fails on a registry that holds ["default"]: a second
    [create("default", None)] returns, and ["default"] then names another
    object than before. *)
Lemma create_twice_rebinds :
  style_map (state_after one_style reset) !! "default" = Some 0 /\
  returned (one_style (state_after one_style reset)) = Some tt /\
  style_map (state_after one_style (state_after one_style reset)) !! "default"
  = Some 1.
Proof. by_computation. Qed.


(** *** The expansion table *)

(** The ten [register_prefix] calls leave the global list [prefixes] as it
    was written: the two calls that bind [alts2] to it add nothing. *)
Lemma registered_keeps_prefixes : prefixes registered = prefixes0.
Proof. vm_compute. reflexivity. Qed.

(** [init()] meets no missing key. *)
Lemma init_succeeds :
  match init registered with Some _ => true | None => false end = true.
Proof. vm_compute. reflexivity. Qed.

(** It fills eight offsets, none of them for the empty prefix, and one
    expansion for each of the ten prefixes and sixty-four properties and
    for each of the nine aliases under five prefixes. *)
Lemma loaded_sizes :
  property_numbers loaded = 8 * length style_properties /\
  size (prefix_offset loaded) = 8 /\
  prefix_offset loaded !! "" = None /\
  size (expansions loaded) = 10 * length style_properties + 5 * length substitutes.
Proof. by_computation. Qed.

(** C6, as amended: in the scenario of the button, reading [xpos] of
    ["button"] with the active prefix ["hover_"] gives [10], and with
    ["idle_"] or ["insensitive_"] it gives the [0] inherited from
    ["default"]; the assignment to [hover_xpos] also reaches the
    ["activate_"] slot.  The empty prefix has no storage offset, so it
    cannot be made the active prefix: [set_prefix("")] raises
    [KeyError]. *)
Theorem button_scenario_reads (easy : normalizer -> value -> value) :
  returned ((b <- button_scenario easy ;; read_xpos "hover_" b) reset)
  = Some (VInt 10) /\
  returned ((b <- button_scenario easy ;; read_xpos "idle_" b) reset)
  = Some (VInt 0) /\
  returned ((b <- button_scenario easy ;; read_xpos "insensitive_" b) reset)
  = Some (VInt 0) /\
  returned ((b <- button_scenario easy ;; read_xpos "activate_" b) reset)
  = Some (VInt 10) /\
  raised ((b <- button_scenario easy ;; read_xpos "" b) reset)
  = Some (KeyError "").
Proof. by_computation. Qed.

(** C6, as stated, fails: reading with the active prefix [""] does not
    give [0], it raises. *)
Lemma button_base_prefix_raises :
  returned ((b <- button_scenario plain ;; read_xpos "" b) reset) = None /\
  raised ((b <- button_scenario plain ;; read_xpos "" b) reset)
  = Some (KeyError "").
Proof. by_computation. Qed.

(** Under a state prefix or no prefix an alias is expanded like the
    properties it stands for, whatever the order in which the batch
    lists them. *)
Lemma alias_expands_under_state_prefix easy p v :
  p ∈ prefixes registered ++ [""] ->
  expand_properties easy loaded [(p +:+ "xalign", v)]
  = expand_properties easy loaded [(p +:+ "xpos", v); (p +:+ "xanchor", v)] /\
  expand_properties easy loaded [(p +:+ "xalign", v)]
  = expand_properties easy loaded [(p +:+ "xanchor", v); (p +:+ "xpos", v)] /\
  exists ts, expand_properties easy loaded [(p +:+ "xalign", v)] = inr ts.
Proof.
  intros Hp. vm_compute in Hp.
  repeat (apply elem_of_cons in Hp as [->|Hp]);
    [..|exfalso; by apply elem_of_nil in Hp].
  all: split; [vm_compute; reflexivity|].
  all: split; [vm_compute; reflexivity|].
  all: eexists; vm_compute; reflexivity.
Qed.

(** C7, on the code: [init] expands the aliases under the state prefixes
    and the empty prefix only.  With a role prefix the alias is not a key
    of [expansions], so a style holding [selected_xalign = v] cannot be
    built, while the same style holding [selected_xpos = v] and
    [selected_xanchor = v] in one batch can. *)
Theorem alias_unknown_under_role_prefix (easy : normalizer -> value -> value)
    (v : value) :
  expansions loaded !! "selected_xalign" = None /\
  build_style easy loaded 1000 1000 0 (root_with [("selected_xalign", v)])
  = Raise (Exception_ "Style property selected_xalign is unknown.")
          (root_with [("selected_xalign", v)]) /\
  returned (build_style easy loaded 1000 1000 0
              (root_with [("selected_xpos", v); ("selected_xanchor", v)]))
  = Some tt.
Proof. by_computation. Qed.

(** A registered prefix that names no role has, as alternates, its state
    alternates under every role. *)
Lemma roleless_prefix_covers_roles p :
  p ∈ ["activate_"; "hover_"; "idle_"; "insensitive_"; ""] ->
  exists prio alts,
    prefix_subs registered !! p = Some (prio, alts) /\
    alts = (r ← roles;
            a2 ← filter (fun a => startswith a "selected_" = false) alts;
            [r +:+ a2]).
Proof.
  intros Hp.
  repeat (apply elem_of_cons in Hp as [->|Hp]); [..|exfalso; by apply elem_of_nil in Hp].
  all: do 2 eexists; split; [vm_compute; reflexivity|].
  all: vm_compute; reflexivity.
Qed.

(** C9: for every property [P] of [style_properties], the assignment
    [hover_P = v] expands, at the priority of [hover_], to the slots of
    [P] under ["selected_hover_"], ["selected_activate_"], ["hover_"] and
    ["activate_"]; once a style holding it is built, [P] reads as the
    normalised [v] under each of these four prefixes and stays unset under
    the four others. *)
Theorem hover_fans_out easy P func v :
  (P, func) ∈ style_properties ->
  (exists n sh sa h a,
     property_number loaded !! P = Some n /\
     prefix_offset loaded !! "selected_hover_" = Some sh /\
     prefix_offset loaded !! "selected_activate_" = Some sa /\
     prefix_offset loaded !! "hover_" = Some h /\
     prefix_offset loaded !! "activate_" = Some a /\
     prefix_subs registered !! "hover_"
     = Some (2, ["selected_hover_"; "selected_activate_"; "hover_"; "activate_"]) /\
     expand_properties easy loaded [("hover_" +:+ P, v)]
     = inr [ (2, n + sh, normalised easy func v);
             (2, n + sa, normalised easy func v);
             (2, n + h, normalised easy func v);
             (2, n + a, normalised easy func v) ]) /\
  (forall p,
     p ∈ ["selected_hover_"; "selected_activate_"; "hover_"; "activate_"] ->
     returned ((build_style easy loaded 1000 1000 0 ;;;
                set_prefix loaded 0 p ;;;
                getter loaded 0 P) (root_with [("hover_" +:+ P, v)]))
     = Some (normalised easy func v)) /\
  (forall p,
     p ∈ ["selected_idle_"; "selected_insensitive_"; "idle_"; "insensitive_"] ->
     returned ((build_style easy loaded 1000 1000 0 ;;;
                set_prefix loaded 0 p ;;;
                getter loaded 0 P) (root_with [("hover_" +:+ P, v)]))
     = Some VNone).
Proof.
  intros H. unfold style_properties in H.
  repeat (apply elem_of_cons in H as [[= -> ->]|H]);
    [..|exfalso; by apply elem_of_nil in H].
  all: split; [do 5 eexists; by_computation|].
  all: split; intros p Hp;
    repeat (apply elem_of_cons in Hp as [->|Hp]);
    try (exfalso; by apply elem_of_nil in Hp); vm_compute; reflexivity.
Qed.

(** [hover_fans_out] applies to [xpos]. *)
Lemma hover_fans_out_witness :
  expand_properties plain loaded [("hover_xpos", VInt 10)]
  = inr [ (2, 57, VInt 10); (2, 249, VInt 10); (2, 313, VInt 10); (2, 505, VInt 10) ].
Proof.
  destruct (hover_fans_out plain "xpos" None (VInt 10)) as [Hex _].
  { unfold style_properties. repeat (first [by left | right]). }
  destruct Hex as (n & sh & sa & h & a & Hn & Hsh & Hsa & Hh & Ha & _ & Hex).
  vm_compute in Hn, Hsh, Hsa, Hh, Ha.
  injection Hn as <-. injection Hsh as <-. injection Hsa as <-.
  injection Hh as <-. injection Ha as <-. exact Hex.
Defined.

End Concrete.

(** ** The JSONDB store *)

Section StoreFacts.

Import JSONDB Examples.

(** Once [get_dict] has passed its guard, it returns the current key and
    files the default dictionary under it when the key was missing. *)
Lemma get_dict_inserts s k :
  current_key s = k ->
  data s !! k = None ->
  (k = None -> developer s = false) ->
  get_dict s = Ok k (set_data (<[k := default s]> (data s)) s).
Proof.
  intros Hk Hnone Hguard. unfold get_dict. monad. rewrite Hk, Hnone.
  destruct k as [k|]; [reflexivity|]. by rewrite Hguard.
Qed.

(** C10, as amended: when the current key is missing from the data and
    is not [None] in developer mode, every read (item access, length,
    iteration, containment, [get]) files the default dictionary under
    that key before it answers, item access doing so even when it then
    raises [KeyError].  With a [None] key in developer mode the read
    raises before it touches the data. *)
Theorem reads_insert_default s k x dflt :
  current_key s = k ->
  data s !! k = None ->
  (k = None -> developer s = false) ->
  let s' := set_data (<[k := default s]> (data s)) s in
  getitem x s = match default s !! x with
                | Some v => Ok v s'
                | None => Raise (KeyError x) s'
                end /\
  len_ s = Ok (size (default s)) s' /\
  iter_ s = Ok (fst <$> map_to_list (default s)) s' /\
  contains x s = Ok (bool_decide (is_Some (default s !! x))) s' /\
  get x dflt s = Ok (from_option id dflt (default s !! x)) s'.
Proof.
  intros Hk Hnone Hguard s'.
  pose proof (get_dict_inserts s k Hk Hnone Hguard) as Hget.
  assert (Hd : the_dict k s' = Ok (default s) s').
  { unfold the_dict. monad. subst s'. cbn. by rewrite lookup_insert_eq. }
  unfold getitem, len_, iter_, contains, get. monad. fold s' in Hget.
  rewrite Hget, Hd. repeat split. by destruct (default s !! x).
Qed.

(** [reads_insert_default] applies to the first read of a line's
    dictionary. *)
Lemma reads_insert_default_witness :
  getitem "enabled" line_db
  = Ok (PBool false)
       (set_data (<[Some "start_a170b500" := default line_db]> (data line_db))
                 line_db).
Proof.
  apply (reads_insert_default line_db (Some "start_a170b500") "enabled" PNone);
    [reflexivity|reflexivity|discriminate].
Defined.

(** C10, as stated, fails on [dialogue_db]: the current key [None] is
    not in the data, and a read raises without inserting anything. *)
Lemma read_with_none_key_inserts_nothing :
  data dialogue_db !! current_key dialogue_db = None /\
  getitem "enabled" dialogue_db
  = Raise (Exception_ "Accessing JSONDB with a None key.") dialogue_db.
Proof. split; reflexivity. Qed.

(** With [config.developer] off, [clear], [__delitem__] and [pop] go
    through: none of them calls [check]. *)
Lemma clear_skips_check s :
  developer s = false ->
  exists s', clear s = Ok tt s' /\ dirty s' = true /\
             data s' !! current_key s = Some ∅.
Proof.
  destruct s as [f d df di ky dev]. cbn. intros ->.
  unfold clear, get_dict, put_dict, current_key. monad. cbn.
  destruct ky as [[k|]|]; cbn.
  all: destruct (d !! _); cbn.
  all: eexists; split; [reflexivity|]; cbn; split; [done|].
  all: by rewrite lookup_insert_eq.
Qed.

(** C8, on the code: with [config.developer] off, deleting an item,
    clearing and popping succeed and change the stored data, since only
    [__setitem__] and [update] call [check]; and [update] sets the dirty
    flag before [check] rejects a value, in developer mode or not, so the
    rejection leaves the state changed. *)
Theorem mutators_without_check :
  (returned (delitem "enabled" released_db) = Some tt /\
   data (state_after (delitem "enabled") released_db) !! Some "data" = Some ∅ /\
   dirty (state_after (delitem "enabled") released_db) = true) /\
  (returned (clear released_db) = Some tt /\
   data (state_after clear released_db) !! Some "data" = Some ∅) /\
  (returned (pop "enabled" PNone released_db) = Some (PBool true) /\
   data (state_after (pop "enabled" PNone) released_db) !! Some "data" = Some ∅) /\
  (raised (setitem "enabled" (PBool false) released_db)
   = Some (RuntimeError "A JSONDB can only be modified when config.developer is True.") /\
   state_after (setitem "enabled" (PBool false)) released_db = released_db) /\
  (raised (update [("enabled", PObject 0)] developer_db)
   = Some (TypeError "The data is not JSON serializable.") /\
   dirty developer_db = false /\
   dirty (state_after (update [("enabled", PObject 0)]) developer_db) = true) /\
  (raised (setitem "enabled" (PObject 0) developer_db)
   = Some (TypeError "The data is not JSON serializable.") /\
   state_after (setitem "enabled" (PObject 0)) developer_db = developer_db).
Proof. by_computation. Qed.

End StoreFacts.

(** ** The order of the tuples *)

Section OrderFacts.

Import Style Props Tuples.

(** *** The order [list.sort] uses on the tuples *)

Lemma value_compare_antisym a b :
  value_compare a b = CompOpp (value_compare b a).
Proof.
  destruct a, b; cbn; try reflexivity.
  - apply Z.compare_antisym.
  - apply String.compare_antisym.
Qed.

Lemma value_compare_eq a b : value_compare a b = Eq -> a = b.
Proof.
  destruct a, b; cbn; try discriminate; try reflexivity.
  - intros H. apply Z.compare_eq in H. by subst.
  - intros H. apply String.compare_eq_iff in H. by subst.
Qed.

Lemma value_compare_refl a : value_compare a a = Eq.
Proof.
  destruct a; cbn; [reflexivity|apply Z.compare_refl|].
  apply OrderedTypeEx.String_as_OT.cmp_eq. reflexivity.
Qed.

Lemma value_compare_trans a b c :
  value_compare a b = Lt -> value_compare b c = Lt -> value_compare a c = Lt.
Proof.
  destruct a, b, c; cbn; try discriminate; try reflexivity.
  - rewrite !Z.compare_lt_iff. lia.
  - intros H1 H2.
    apply OrderedTypeEx.String_as_OT.cmp_lt in H1, H2.
    apply OrderedTypeEx.String_as_OT.cmp_lt.
    by eapply OrderedTypeEx.String_as_OT.lt_trans.
Qed.

Lemma triple_compare_antisym x y :
  triple_compare x y = CompOpp (triple_compare y x).
Proof.
  destruct x as [[p i] v], y as [[q j] w]. unfold triple_compare. cbn.
  rewrite (Nat.compare_antisym q p), (Nat.compare_antisym j i),
    (value_compare_antisym v w).
  destruct (q ?= p)%nat; cbn; try reflexivity.
  destruct (j ?= i)%nat; cbn; reflexivity.
Qed.

Lemma triple_compare_eq x y : triple_compare x y = Eq -> x = y.
Proof.
  destruct x as [[p i] v], y as [[q j] w]. unfold triple_compare. cbn.
  destruct (p ?= q)%nat eqn:Hp; try discriminate.
  destruct (i ?= j)%nat eqn:Hi; try discriminate.
  intros Hv. apply Nat.compare_eq in Hp, Hi. apply value_compare_eq in Hv.
  by subst.
Qed.

Lemma triple_compare_refl x : triple_compare x x = Eq.
Proof.
  destruct x as [[p i] v]. unfold triple_compare. cbn.
  by rewrite !Nat.compare_refl, value_compare_refl.
Qed.

Lemma triple_compare_trans x y z :
  triple_compare x y = Lt -> triple_compare y z = Lt -> triple_compare x z = Lt.
Proof.
  destruct x as [[p i] v], y as [[q j] w], z as [[r k] u].
  unfold triple_compare. cbn.
  destruct (p ?= q)%nat eqn:Hpq; try discriminate;
  destruct (q ?= r)%nat eqn:Hqr; try discriminate.
  all: try apply Nat.compare_eq in Hpq; try apply Nat.compare_eq in Hqr.
  all: try apply Nat.compare_lt_iff in Hpq; try apply Nat.compare_lt_iff in Hqr.
  all: subst.
  - rewrite Nat.compare_refl.
    destruct (i ?= j)%nat eqn:Hij; try discriminate;
    destruct (j ?= k)%nat eqn:Hjk; try discriminate.
    all: try apply Nat.compare_eq in Hij; try apply Nat.compare_eq in Hjk.
    all: try apply Nat.compare_lt_iff in Hij; try apply Nat.compare_lt_iff in Hjk.
    all: subst.
    + rewrite Nat.compare_refl. apply value_compare_trans.
    + intros _ _. by apply Nat.compare_lt_iff in Hjk as ->.
    + intros _ _. by apply Nat.compare_lt_iff in Hij as ->.
    + intros _ _. assert (H : i < k) by lia. by apply Nat.compare_lt_iff in H as ->.
  - intros _ _. by apply Nat.compare_lt_iff in Hqr as ->.
  - intros _ _. by apply Nat.compare_lt_iff in Hpq as ->.
  - intros _ _. assert (H : p < r) by lia. by apply Nat.compare_lt_iff in H as ->.
Qed.

Lemma triple_leb_total x y : triple_leb x y = false -> triple_leb y x = true.
Proof.
  unfold triple_leb. rewrite (triple_compare_antisym y x).
  by destruct (triple_compare x y).
Qed.

Lemma triple_leb_refl x : triple_leb x x = true.
Proof. unfold triple_leb. by rewrite triple_compare_refl. Qed.

Lemma triple_leb_antisym x y :
  triple_leb x y = true -> triple_leb y x = true -> x = y.
Proof.
  unfold triple_leb. rewrite (triple_compare_antisym y x).
  destruct (triple_compare x y) eqn:H; cbn; try discriminate.
  intros _ _. by apply triple_compare_eq.
Qed.

Lemma triple_leb_trans x y z :
  triple_leb x y = true -> triple_leb y z = true -> triple_leb x z = true.
Proof.
  unfold triple_leb.
  destruct (triple_compare x y) eqn:Hxy; try discriminate;
  destruct (triple_compare y z) eqn:Hyz; try discriminate; intros _ _.
  - apply triple_compare_eq in Hxy, Hyz. subst. by rewrite triple_compare_refl.
  - apply triple_compare_eq in Hxy. subst. by rewrite Hyz.
  - apply triple_compare_eq in Hyz. subst. by rewrite Hxy.
  - by rewrite (triple_compare_trans x y z).
Qed.

(** A higher priority puts a tuple later. *)
Lemma triple_leb_prio x y : triple_leb x y = true -> x.1.1 <= y.1.1.
Proof.
  unfold triple_leb, triple_compare.
  destruct (x.1.1 ?= y.1.1)%nat eqn:H.
  - apply Nat.compare_eq in H. lia.
  - apply Nat.compare_lt_iff in H. lia.
  - discriminate.
Qed.

(** *** [rv.sort()] *)

Lemma insert_sorted_perm x l : Permutation (x :: l) (insert_sorted x l).
Proof.
  induction l as [|y l IH]; cbn; [done|].
  destruct (triple_leb x y); [done|].
  rewrite perm_swap. by constructor.
Qed.

Lemma sort_perm l : Permutation l (sort l).
Proof.
  induction l as [|x l IH]; cbn; [done|].
  rewrite <- insert_sorted_perm. by constructor.
Qed.

Lemma insert_sorted_sorted x l :
  StronglySorted (fun a b => triple_leb a b = true) l ->
  StronglySorted (fun a b => triple_leb a b = true) (insert_sorted x l).
Proof.
  induction 1 as [|y l Hl IH Hy]; cbn; [repeat constructor|].
  destruct (triple_leb x y) eqn:Hxy.
  - constructor; [by constructor|]. constructor; [done|].
    eapply Forall_impl; [exact Hy|]. intros z Hz. by eapply triple_leb_trans.
  - constructor; [done|].
    rewrite <- insert_sorted_perm. constructor; [|done].
    by apply triple_leb_total.
Qed.

Lemma sort_sorted l : StronglySorted (fun a b => triple_leb a b = true) (sort l).
Proof.
  induction l as [|x l IH]; cbn; [constructor|]. by apply insert_sorted_sorted.
Qed.




(** *** Writing the tuples into a cache *)

Lemma last_write_Some ts i w :
  last_write ts i = Some w -> exists p, (p, i, w) ∈ ts.
Proof.
  induction ts as [|[[q j] v] ts IH]; cbn; [discriminate|].
  destruct (last_write ts i) as [w'|].
  - intros [= ->]. destruct IH as [p Hp]; [done|]. exists p. by right.
  - destruct (Nat.eqb_spec j i) as [->|]; [|discriminate].
    intros [= ->]. exists q. by left.
Qed.

Lemma last_write_None ts i p w :
  last_write ts i = None -> (p, i, w) ∉ ts.
Proof.
  induction ts as [|[[q j] v] ts IH]; cbn; [intros _ H; inversion H|].
  destruct (last_write ts i) as [w'|]; [discriminate|].
  destruct (Nat.eqb_spec j i) as [->|Hne]; [discriminate|].
  intros _ Hin. apply elem_of_cons in Hin as [[= -> -> ->]|Hin]; [done|].
  by apply IH.
Qed.

Lemma last_write_app ts1 ts2 i :
  last_write (ts1 ++ ts2) i
  = match last_write ts2 i with Some w => Some w | None => last_write ts1 i end.
Proof.
  induction ts1 as [|[[q j] v] ts1 IH]; cbn; [by destruct (last_write ts2 i)|].
  rewrite IH. by destruct (last_write ts2 i), (last_write ts1 i).
Qed.

(** What [store_triples] leaves in each slot, and when it fails. *)
Lemma store_triples_spec ts : forall c c',
  store_triples ts c = inr c' ->
  length c' = length c /\
  forall i, c' !! i = match last_write ts i with
                      | Some w => Some w
                      | None => c !! i
                      end.
Proof.
  induction ts as [|[[q j] v] ts IH]; intros c c'; cbn.
  - intros [= <-]. done.
  - unfold store_slot. destruct (Nat.ltb_spec j (length c)) as [Hlt|]; [|discriminate].
    intros H. apply IH in H as [Hlen Hget]. rewrite length_insert in Hlen.
    split; [done|]. intros i. rewrite Hget.
    destruct (last_write ts i); [done|].
    destruct (Nat.eqb_spec j i) as [->|Hne].
    + by rewrite list_lookup_insert_eq.
    + by rewrite list_lookup_insert_ne.
Qed.

Lemma store_triples_ok ts : forall c,
  (forall p j v, (p, j, v) ∈ ts -> j < length c) ->
  exists c', store_triples ts c = inr c'.
Proof.
  induction ts as [|[[q j] v] ts IH]; intros c Hin; cbn; [by eexists|].
  unfold store_slot. destruct (Nat.ltb_spec j (length c)) as [Hlt|Hge].
  - apply IH. intros p k w Hk. rewrite length_insert. apply (Hin p k w). by right.
  - assert (j < length c); [apply (Hin q j v); by left|lia].
Qed.

Lemma store_triples_bound ts : forall c c',
  store_triples ts c = inr c' ->
  forall p j v, (p, j, v) ∈ ts -> j < length c.
Proof.
  induction ts as [|[[q j] v] ts IH]; intros c c'; cbn.
  - intros _ p j v H. inversion H.
  - unfold store_slot. destruct (Nat.ltb_spec j (length c)) as [Hlt|]; [|discriminate].
    intros H p k w Hin. apply elem_of_cons in Hin as [[= -> -> ->]|Hin]; [done|].
    specialize (IH _ _ H p k w Hin). by rewrite length_insert in IH.
Qed.

(** In a sorted list, the last tuple of a slot is the greatest one. *)
Lemma last_write_sorted ts p i v :
  StronglySorted (fun a b => triple_leb a b = true) ts ->
  (p, i, v) ∈ ts ->
  (forall q w, (q, i, w) ∈ ts -> triple_leb (q, i, w) (p, i, v) = true) ->
  last_write ts i = Some v.
Proof.
  induction 1 as [|[[q j] u] ts Hs IH Hall]; intros Hin Hmax; [inversion Hin|].
  cbn. destruct (last_write ts i) as [w|] eqn:Hlast.
  - destruct (last_write_Some _ _ _ Hlast) as [r Hr].
    apply elem_of_cons in Hin as [[= <- <- <-]|Hin].
    + f_equal. rewrite Forall_forall in Hall.
      assert (E : (p, i, v) = (r, i, w)).
      { apply triple_leb_antisym; [by apply Hall|]. apply Hmax. by right. }
      by injection E.
    + apply IH; [done|]. intros q' w' Hq. apply Hmax. by right.
  - apply elem_of_cons in Hin as [[= <- <- <-]|Hin].
    + by rewrite Nat.eqb_refl.
    + by destruct (last_write_None _ _ p v Hlast).
Qed.

(** *** The tuples of a batch *)



Lemma expand_items_tuples T easy items rv :
  expand_items easy T items = inr rv -> rv = batch_tuples easy T items.
Proof.
  revert rv. induction items as [|[k v] items IH]; intros rv; cbn.
  - by intros [= <-].
  - destruct (expansions T !! k) as [e|]; [|discriminate].
    destruct (expand_items easy T items) as [|rv']; [discriminate|].
    intros [= <-]. cbn. by rewrite (IH rv').
Qed.

Lemma expand_properties_tuples T easy items ts :
  expand_properties easy T items = inr ts ->
  ts = sort (batch_tuples easy T items).
Proof.
  unfold expand_properties.
  destruct (expand_items easy T items) as [|rv] eqn:Hrv; [discriminate|].
  intros [= <-]. by rewrite (expand_items_tuples _ _ _ _ Hrv).
Qed.

(** X1: the tuples [expand_properties] returns are those of the
    expansions of the properties of the batch, each once, in an order in
    which the priority never decreases: the more important ones come
    last. *)
Theorem expand_properties_priority_order T easy items ts :
  expand_properties easy T items = inr ts ->
  Permutation (batch_tuples easy T items) ts /\
  StronglySorted (fun a b : triple => a.1.1 <= b.1.1) ts.
Proof.
  intros H. apply expand_properties_tuples in H as ->. split.
  - apply sort_perm.
  - generalize (sort_sorted (batch_tuples easy T items)).
    induction 1 as [|x l Hl IH Hx]; constructor; [done|].
    eapply Forall_impl; [exact Hx|]. intros y. apply triple_leb_prio.
Qed.


Lemma replay_batches_app T easy ps qs c :
  replay_batches easy T (ps ++ qs) c
  = match replay_batches easy T ps c with
    | inl err => inl err
    | inr c' => replay_batches easy T qs c'
    end.
Proof.
  revert c. induction ps as [|p ps IH]; intros c; cbn; [done|].
  destruct (expand_properties easy T p) as [|ts]; [done|].
  destruct (store_triples ts c) as [|c']; [done|]. apply IH.
Qed.

Lemma last_batch_decides T easy ps items c c' p i v :
  replay_batches easy T (ps ++ [items]) c = inr c' ->
  (p, i, v) ∈ batch_tuples easy T items ->
  (forall q w, (q, i, w) ∈ batch_tuples easy T items ->
     q < p \/ (q = p /\ w = v)) ->
  c' !! i = Some v.
Proof.
  intros Hrun Hin Hmax. rewrite replay_batches_app in Hrun.
  destruct (replay_batches easy T ps c) as [|c1]; [discriminate|].
  cbn in Hrun.
  destruct (expand_properties easy T items) as [|ts] eqn:Hts; [discriminate|].
  destruct (store_triples ts c1) as [|c2] eqn:Hstore; [discriminate|].
  injection Hrun as <-.
  apply expand_properties_tuples in Hts as ->.
  apply store_triples_spec in Hstore as [_ Hget]. rewrite Hget.
  rewrite (last_write_sorted _ p i v); [done|apply sort_sorted| |].
  - by rewrite <- sort_perm.
  - intros q w Hq. rewrite <- sort_perm in Hq.
    destruct (Hmax q w Hq) as [Hlt|[-> ->]]; [|apply triple_leb_refl].
    unfold triple_leb, triple_compare. cbn.
    by apply Nat.compare_lt_iff in Hlt as ->.
Qed.

(** X3: within the batch replayed last, the tuple of the highest priority
    decides a slot, whatever the earlier batches and the other properties
    of the batch wrote there. *)
Theorem highest_priority_wins T easy ps items c c' p i v :
  replay_batches easy T (ps ++ [items]) c = inr c' ->
  (p, i, v) ∈ batch_tuples easy T items ->
  (forall q w, (q, i, w) ∈ batch_tuples easy T items ->
     q < p \/ (q = p /\ w = v)) ->
  c' !! i = Some v.
Proof. apply last_batch_decides. Qed.

End OrderFacts.

(** ** The build *)

Section BuildFacts.

Import Style Props Tuples Frame.

Variable renpy_easy : normalizer -> value -> value.
Variable T : tables.

(** *** What a build changes *)

Lemma only_caches_set_refl st : only_caches_set st st.
Proof. repeat split. intros a s Hs. by left. Qed.

Lemma only_caches_set_trans st1 st2 st3 :
  only_caches_set st1 st2 -> only_caches_set st2 st3 -> only_caches_set st1 st3.
Proof.
  intros (Hm & Hb & Hp & Hl & Hh) (Hm' & Hb' & Hp' & Hl' & Hh').
  repeat split; try congruence.
  intros a s Hs. destruct (Hh a s Hs) as [H2|(Hheavy & c & H2)].
  - exact (Hh' a s H2).
  - right. split; [done|].
    destruct (Hh' a _ H2) as [H3|(_ & c' & H3)]; [by exists c|by exists c'].
Qed.

Lemma built_from_refl st : built_from T st st.
Proof. split; [apply only_caches_set_refl|done]. Qed.

Lemma built_from_trans st1 st2 st3 :
  built_from T st1 st2 -> built_from T st2 st3 -> built_from T st1 st3.
Proof.
  intros [H12 W12] [H23 W23]. split; [by eapply only_caches_set_trans|].
  intros Hs Hw. apply W23; [done|]. by apply W12.
Qed.

Lemma update_cache_only st a so c :
  heap st !! a = Some so ->
  heavy so = true ->
  only_caches_set st (set_heap (<[a := set_cache (Some c) so]> (heap st)) st).
Proof.
  intros Ha Hheavy. repeat split; cbn; [by rewrite length_insert|].
  intros b s Hb. destruct (decide (a = b)) as [->|Hne].
  - right. assert (s = so) as -> by congruence. split; [done|]. exists c.
    rewrite list_lookup_insert_eq; [done|]. by eapply lookup_lt_Some.
  - left. by rewrite list_lookup_insert_ne.
Qed.

Lemma update_cache_well_sized st a so c :
  heap st !! a = Some so ->
  well_sized T st ->
  length c = property_numbers T ->
  well_sized T (set_heap (<[a := set_cache (Some c) so]> (heap st)) st).
Proof.
  intros Ha Hw Hlen b s cb. cbn. destruct (decide (a = b)) as [->|Hne].
  - rewrite list_lookup_insert_eq by (by eapply lookup_lt_Some).
    intros [= <-]. cbn. by intros [= <-].
  - rewrite list_lookup_insert_ne by done. apply Hw.
Qed.

Lemma walk_pure fuel style_parent : forall s acc st,
  match walk fuel style_parent s acc st with
  | Ok r st' => st' = st /\ exists l, r.1 = l ++ s :: acc
  | Raise _ st' => st' = st
  | OutOfFuel => True
  end.
Proof.
  induction fuel as [|fuel IH]; intros s acc st; [done|].
  cbn [walk]. unfold bind, ret, raise, get_state, deref.
  destruct (heap st !! s) as [so|]; [|done].
  destruct (parent so) as [pname|]; [|split; [done|by exists []]].
  destruct (style_map st !! pname) as [pa|]; [|done].
  destruct (heap st !! pa) as [po|]; [|done].
  destruct (heavy po); [split; [done|by exists []]|].
  specialize (IH pa (s :: acc) st).
  destruct (walk fuel style_parent pa (s :: acc) st) as [r st'|e st'|]; [|done|done].
  destruct IH as [-> [l Hl]]. split; [done|]. exists (l ++ [pa]).
  by rewrite Hl, <- app_assoc.
Qed.

Lemma replay_batches_length ps : forall c c',
  replay_batches renpy_easy T ps c = inr c' -> length c' = length c.
Proof.
  induction ps as [|p ps IH]; intros c c'; cbn; [by intros [= <-]|].
  destruct (expand_properties renpy_easy T p) as [|ts]; [discriminate|].
  destruct (store_triples ts c) as [|c1] eqn:Hs; [discriminate|].
  intros H. apply IH in H. apply store_triples_spec in Hs as [Hlen _]. lia.
Qed.

Lemma replay_styles_last l : forall a c st,
  match replay_styles renpy_easy T (l ++ [a]) c st with
  | Ok c' st' =>
      st' = st /\ exists c1 so,
        heap st !! a = Some so /\ length c1 = length c /\
        replay_batches renpy_easy T (properties so) c1 = inr c'
  | Raise _ st' => st' = st
  | OutOfFuel => False
  end.
Proof.
  induction l as [|b l IH]; intros a c st; cbn [app replay_styles].
  - unfold bind, ret, raise, deref. destruct (heap st !! a) as [so|] eqn:Ha; [|done].
    destruct (replay_batches renpy_easy T (properties so) c) as [|c'] eqn:Hr; [done|].
    split; [done|]. by exists c, so.
  - unfold bind, ret, raise, deref. destruct (heap st !! b) as [sb|]; [|done].
    destruct (replay_batches renpy_easy T (properties sb) c) as [|c1] eqn:Hr; [done|].
    specialize (IH a c1 st).
    destruct (replay_styles renpy_easy T (l ++ [a]) c1 st) as [c' st'|e st'|]; [|done|done].
    destruct IH as [-> (c2 & so & Ha & Hlen & Hrun)]. split; [done|].
    exists c2, so. split; [done|]. split; [|done].
    apply replay_batches_length in Hr. lia.
Qed.

(** What [build_style] does to the state, however it ends, and what the
    cache of the style is made of when it returns. *)
Lemma build_style_spec depth fuel : forall a st0,
  match build_style renpy_easy T depth fuel a st0 with
  | Ok _ st' =>
      built_from T st0 st' /\
      forall s, heap st0 !! a = Some s -> heavy s = true ->
        exists c1 c',
          replay_batches renpy_easy T (properties s) c1 = inr c' /\
          heap st' !! a = Some (set_cache (Some c') s) /\
          (slots_in_range T -> well_sized T st0 ->
           length c1 = property_numbers T)
  | Raise _ st' => built_from T st0 st'
  | OutOfFuel => True
  end.
Proof.
  induction depth as [|depth IH]; intros a st0; [apply built_from_refl|].
  cbn [build_style]. unfold bind at 1. unfold deref at 1.
  destruct (heap st0 !! a) as [style|] eqn:Ha; [|apply built_from_refl].
  destruct (heavy style) eqn:Hheavy; cbn [negb].
  2:{ cbn. split; [apply built_from_refl|]. intros s [= <-]. congruence. }
  unfold bind at 1. pose proof (walk_pure fuel (parent style) a [] st0) as Hwalk.
  destruct (walk fuel (parent style) a [] st0) as [[ls par] st|e st|]; [| |done].
  2:{ subst. apply built_from_refl. }
  destruct Hwalk as [-> [l Hl]]. cbn [fst snd] in *. subst ls.
  (* the seed of the cache *)
  assert (Hseed :
    match (match par with
           | Some pa =>
               po <- deref pa ;;
               (if cache_unset (cache po)
                then build_style renpy_easy T depth fuel pa else ret tt) ;;;
               po <- deref pa ;;
               match cache po with
               | Some pc => ret pc
               | None => raise (TypeError "'NoneType' object has no attribute '__getitem__'")
               end
           | None => ret (replicate (property_numbers T) VNone)
           end) st0 with
    | Ok c0 st1 =>
        built_from T st0 st1 /\
        (slots_in_range T -> well_sized T st0 -> length c0 = property_numbers T)
    | Raise _ st1 => built_from T st0 st1
    | OutOfFuel => True
    end).
  { destruct par as [pa|].
    - unfold bind at 1. unfold deref at 1.
      destruct (heap st0 !! pa) as [po|]; [|apply built_from_refl].
      unfold bind at 1.
      assert (Hsub :
        match (if cache_unset (cache po)
               then build_style renpy_easy T depth fuel pa else ret tt) st0 with
        | Ok _ st1 => built_from T st0 st1
        | Raise _ st1 => built_from T st0 st1
        | OutOfFuel => True
        end).
      { destruct (cache_unset (cache po)); [|apply built_from_refl].
        specialize (IH pa st0).
        destruct (build_style renpy_easy T depth fuel pa st0); [|done|done].
        by destruct IH. }
      destruct ((if cache_unset (cache po)
                 then build_style renpy_easy T depth fuel pa else ret tt) st0)
        as [[] st1|e st1|]; [|done|done].
      unfold bind, deref, ret, raise.
      destruct (heap st1 !! pa) as [po1|] eqn:Hpo1; [|done].
      destruct (cache po1) as [pc|] eqn:Hpc; [|done].
      split; [done|]. intros Hs Hw. destruct Hsub as [_ Hws].
      by eapply (Hws Hs Hw pa po1 pc).
    - cbn. split; [apply built_from_refl|]. intros _ _. apply length_replicate. }
  unfold bind at 1.
  match type of Hseed with
  | match ?seed st0 with _ => _ end => destruct (seed st0) as [c0 st1|e st1|]
  end; [|done|done].
  destruct Hseed as [Hbf Hlen0].
  unfold bind at 1. pose proof (replay_styles_last l a c0 st1) as Hreplay.
  destruct (replay_styles renpy_easy T (l ++ [a]) c0 st1) as [c' st2|e st2|];
    [|by subst|done].
  destruct Hreplay as [-> (c1 & so & Hso & Hlen1 & Hrun)].
  (* the object at [a] is the one we started from, up to its cache *)
  assert (Hsame : properties so = properties style /\ heavy so = true /\
                  set_cache (Some c') so = set_cache (Some c') style).
  { destruct Hbf as [(_ & _ & _ & _ & Hh) _].
    destruct (Hh a style Ha) as [H|(_ & c & H)];
      rewrite H in Hso; injection Hso as <-; by destruct style. }
  destruct Hsame as (Hprops & Hheavy' & Hset).
  unfold update. rewrite Hso. rewrite Hset.
  assert (Hlen' : slots_in_range T -> well_sized T st0 ->
                  length c' = property_numbers T).
  { intros Hs Hw. apply replay_batches_length in Hrun. rewrite Hrun, Hlen1.
    by apply Hlen0. }
  split.
  - split.
    + eapply only_caches_set_trans; [apply Hbf|]. rewrite <- Hset.
      by apply update_cache_only.
    + intros Hs Hw. rewrite <- Hset. apply update_cache_well_sized; [done| |].
      * by apply Hbf.
      * by apply Hlen'.
  - intros s [= <-] _. exists c1, c'. rewrite <- Hprops. split; [done|]. split.
    + cbn. rewrite list_lookup_insert_eq; [done|]. by eapply lookup_lt_Some.
    + intros Hs Hw. rewrite Hlen1. by apply Hlen0.
Qed.

End BuildFacts.

(** ** Reading what was built *)

Section BuiltFacts.

Import Style Props Tuples Frame Ranges.

Variable renpy_easy : normalizer -> value -> value.
Variable T : tables.

Lemma slots_in_rangeb_sound T0 : slots_in_rangeb T0 = true -> slots_in_range T0.
Proof.
  unfold slots_in_rangeb. rewrite forallb_forall.
  intros H k e prio slot func Hk Hin.
  specialize (H (k, e)). rewrite forallb_forall in H.
  assert (Hlt : Nat.ltb (prio, slot, func).1.2 (property_numbers T0) = true).
  { apply H.
    - apply list_elem_of_In. by apply elem_of_map_to_list.
    - by apply list_elem_of_In. }
  by apply Nat.ltb_lt in Hlt.
Qed.

Lemma offsets_in_rangeb_sound T0 : offsets_in_rangeb T0 = true -> offsets_in_range T0.
Proof.
  unfold offsets_in_rangeb. rewrite forallb_forall.
  intros H p off P n Hp HP.
  specialize (H (p, off)). rewrite forallb_forall in H.
  assert (Hlt : Nat.ltb ((p, off).2 + (P, n).2) (property_numbers T0) = true).
  { apply H; apply list_elem_of_In; by apply elem_of_map_to_list. }
  by apply Nat.ltb_lt in Hlt.
Qed.

(** X4: however [build_style] ends, it has set the caches of heavy styles
    and changed nothing else: the raw properties, the parents, the
    registry, the pending list and the built flag are as before, no cache
    has been removed and no light style has been given one. *)
Theorem build_style_sets_only_caches depth fuel a st :
  match build_style renpy_easy T depth fuel a st with
  | Ok _ st' => only_caches_set st st'
  | Raise _ st' => only_caches_set st st'
  | OutOfFuel => True
  end.
Proof.
  pose proof (build_style_spec renpy_easy T depth fuel a st) as H.
  destruct (build_style renpy_easy T depth fuel a st); [|by destruct H|done].
  by destruct H as [[H _] _].
Qed.


(** The loop of [build_styles]. *)
Lemma for_each_build_spec depth fuel pending : forall st,
  match for_each pending (build_style renpy_easy T depth fuel) st with
  | Ok _ st' =>
      built_from T st st' /\
      forall a s, a ∈ pending -> heap st !! a = Some s -> heavy s = true ->
        exists c, heap st' !! a = Some (set_cache (Some c) s) /\
                  (slots_in_range T -> well_sized T st ->
                   length c = property_numbers T)
  | Raise _ st' => built_from T st st'
  | OutOfFuel => True
  end.
Proof.
  induction pending as [|a rest IH]; intros st; cbn [for_each].
  - cbn. split; [apply built_from_refl|]. intros a s Ha. inversion Ha.
  - unfold bind. pose proof (build_style_spec renpy_easy T depth fuel a st) as Ha.
    destruct (build_style renpy_easy T depth fuel a st) as [[] st1|e st1|];
      [|done|done].
    destruct Ha as [Hbf1 Hpost]. specialize (IH st1).
    destruct (for_each rest (build_style renpy_easy T depth fuel) st1)
      as [[] st2|e st2|]; [| |done].
    2:{ by eapply built_from_trans. }
    destruct IH as [Hbf2 Hrest]. split; [by eapply built_from_trans|].
    intros b s Hb Hs Hheavy.
    assert (Hlater : forall x, heap st1 !! b = Some x -> heavy x = true ->
              (exists c, x = set_cache (Some c) s /\
                 (slots_in_range T -> well_sized T st -> length c = property_numbers T)) ->
              exists c, heap st2 !! b = Some (set_cache (Some c) s) /\
                (slots_in_range T -> well_sized T st -> length c = property_numbers T)).
    { intros x Hx Hhx (c & -> & Hlen).
      destruct Hbf2 as [(_ & _ & _ & _ & Hh) Hw2].
      destruct (Hh b _ Hx) as [H2|(_ & c2 & H2)].
      - by exists c.
      - exists c2. split; [by rewrite H2|]. intros Hsl Hw.
        destruct Hbf1 as [_ Hw1].
        apply (Hw2 Hsl (Hw1 Hsl Hw) b _ c2 H2). done. }
    destruct (decide (b ∈ rest)) as [Hin|Hnotin].
    + destruct Hbf1 as [(_ & _ & _ & _ & Hh) Hw1].
      destruct (Hh b s Hs) as [H1|(_ & c1 & H1)].
      * destruct (Hrest b s Hin H1 Hheavy) as (c & Hc & Hlen).
        exists c. split; [done|]. intros Hsl Hw. apply Hlen; [done|].
        by apply Hw1.
      * destruct (Hrest b _ Hin H1 Hheavy) as (c & Hc & Hlen).
        exists c. split; [done|]. intros Hsl Hw. apply Hlen; [done|].
        by apply Hw1.
    + apply elem_of_cons in Hb as [->|Hb]; [|done].
      destruct (Hpost s Hs Hheavy) as (c1 & c' & Hrun & Hc' & Hlen).
      apply (Hlater _ Hc' Hheavy). exists c'. split; [done|].
      intros Hsl Hw. apply replay_batches_length in Hrun. rewrite Hrun.
      by apply Hlen.
Qed.

(** Reading a property of a style that has a cache of the right size. *)
Lemma read_built a s c p off P n st :
  heap st !! a = Some s ->
  cache s = Some c ->
  prefix_offset T !! p = Some off ->
  property_number T !! P = Some n ->
  off + n < length c ->
  exists v st',
    (set_prefix T a p ;;; getter T a P) st = Ok v st' /\ c !! (off + n) = Some v.
Proof.
  intros Ha Hc Hp HP Hlt.
  destruct (lookup_lt_is_Some_2 c (off + n) Hlt) as [v Hv].
  assert (Hlen : a < length (heap st)) by (by eapply lookup_lt_Some).
  exists v. eexists. split; [|done].
  unfold set_prefix, getter, prefix_offset_get, update, deref, bind, ret, raise.
  rewrite Ha, Hp. cbn [heap set_heap]. rewrite HP.
  rewrite list_lookup_insert_eq by done. cbn [heap set_heap].
  rewrite list_lookup_insert_eq by (by rewrite length_insert).
  cbn [set_offset set_prefix_field cache offset]. rewrite Hc.
  rewrite list_insert_insert_eq. cbn. rewrite Hv. reflexivity.
Qed.

(** X5: once the global build has returned, every heavy style of the
    pending list has a cache with a cell for every property under every
    prefix that has storage: reading it raises nothing. *)
Theorem built_styles_are_readable depth fuel st st' pending a s p P :
  slots_in_range T ->
  offsets_in_range T ->
  well_sized T st ->
  styles_pending st = Some pending ->
  build_styles renpy_easy T depth fuel st = Ok tt st' ->
  a ∈ pending ->
  heap st !! a = Some s ->
  heavy s = true ->
  is_Some (prefix_offset T !! p) ->
  is_Some (property_number T !! P) ->
  exists v st'', (set_prefix T a p ;;; getter T a P) st' = Ok v st''.
Proof.
  intros Hsl Hoff Hw Hpend Hrun Ha Hs Hheavy [off Hp] [n HP].
  unfold build_styles in Hrun. unfold bind at 1 in Hrun. cbn in Hrun.
  rewrite Hpend in Hrun. unfold bind at 1 in Hrun.
  pose proof (for_each_build_spec depth fuel pending st) as Hloop.
  destruct (for_each pending (build_style renpy_easy T depth fuel) st)
    as [[] st1|e st1|]; [|done|done].
  destruct Hloop as [_ Hpost]. injection Hrun as <-.
  destruct (Hpost a s Ha Hs Hheavy) as (c & Hc & Hlen).
  destruct (read_built a (set_cache (Some c) s) c p off P n
              (set_styles_built true (set_styles_pending None st1)))
    as (v & st'' & Hread & _); try done.
  - rewrite (Hlen Hsl Hw). by eapply Hoff.
  - by exists v, st''.
Qed.


(** *** Assignment after the build *)

Lemma expand_entries_uniform e p f v memo :
  uniform e p f ->
  memo = None \/ memo = Some (normalised renpy_easy f v) ->
  expand_entries renpy_easy e v memo
  = (fun entry : entry => (p, entry.1.2, normalised renpy_easy f v)) <$> e.
Proof.
  revert memo. induction e as [|[[q i] g] e IH]; intros memo Hu Hmemo; [done|].
  destruct (Hu (q, i, g)) as [Hq Hg]; [by left|]. cbn in Hq, Hg. subst q g.
  assert (Hu' : uniform e p f) by (intros x Hx; apply Hu; by right).
  cbn. destruct f as [f|]; cbn.
  - destruct Hmemo as [->| ->]; cbn; f_equal; apply IH; auto.
  - f_equal. by apply IH.
Qed.

Lemma setattr_slot depth fuel st st' a s k v e p f slot :
  styles_built st = true ->
  heap st !! a = Some s ->
  heavy s = true ->
  expansions T !! k = Some e ->
  uniform e p f ->
  setattr renpy_easy T depth fuel a k v st = Ok tt st' ->
  (p, slot, f) ∈ e ->
  exists c,
    heap st' !! a
    = Some (set_cache (Some c) (set_properties (properties s ++ [[(k, v)]]) s)) /\
    c !! slot = Some (normalised renpy_easy f v).
Proof.
  intros Hbuilt Ha Hheavy Hk Hu Hrun Hin.
  unfold setattr, bind, deref, update, get_state in Hrun. rewrite Ha in Hrun.
  cbv beta iota in Hrun. rewrite Ha in Hrun.
  cbn [styles_built set_heap] in Hrun. rewrite Hbuilt in Hrun.
  set (s1 := set_properties (properties s ++ [[(k, v)]]) s) in *.
  set (st1 := set_heap (<[a := s1]> (heap st)) st) in *.
  pose proof (build_style_spec renpy_easy T depth fuel a st1) as Hspec.
  rewrite Hrun in Hspec. destruct Hspec as [_ Hpost].
  destruct (Hpost s1) as (c1 & c' & Hreplay & Hc' & _).
  { cbn. rewrite list_lookup_insert_eq; [done|]. by eapply lookup_lt_Some. }
  { done. }
  exists c'. split; [done|].
  cbn [properties s1 set_properties] in Hreplay.
  assert (Htuples : batch_tuples renpy_easy T [(k, v)]
            = (fun entry : entry => (p, entry.1.2, normalised renpy_easy f v)) <$> e).
  { unfold batch_tuples. cbn. rewrite Hk. cbn. rewrite app_nil_r.
    apply expand_entries_uniform; auto. }
  eapply (last_batch_decides T renpy_easy _ _ _ _ p); [exact Hreplay| |].
  - rewrite Htuples. apply list_elem_of_fmap. by exists (p, slot, f).
  - intros q w. rewrite Htuples. intros Hq.
    apply list_elem_of_fmap in Hq as (entry & [= -> _ ->] & _). by right.
Qed.

(** X6: an assignment made after the build is what is read next: when
    [setattr] returns on a heavy style, every slot its property name
    expands to holds the normalised value, whatever the priority of the
    earlier assignments to that slot. *)
Theorem setattr_value_is_read depth fuel st st' a s k v e p f slot :
  styles_built st = true ->
  heap st !! a = Some s ->
  heavy s = true ->
  expansions T !! k = Some e ->
  uniform e p f ->
  setattr renpy_easy T depth fuel a k v st = Ok tt st' ->
  (p, slot, f) ∈ e ->
  exists s' c,
    heap st' !! a = Some s' /\ cache s' = Some c /\
    c !! slot = Some (normalised renpy_easy f v).
Proof.
  intros Hbuilt Ha Hheavy Hk Hu Hrun Hin.
  destruct (setattr_slot depth fuel st st' a s k v e p f slot) as (c & Hc & Hslot);
    try done.
  by exists (set_cache (Some c) (set_properties (properties s ++ [[(k, v)]]) s)), c.
Qed.

(** *** Inheritance and missing parents *)

(** X7: a heavy style without properties of its own, whose parent is
    another heavy style, is built as a copy of the cache of its parent,
    which is built first when it has none. *)
Theorem child_copies_parent depth fuel st st' a s pname pa po :
  heap st !! a = Some s ->
  heavy s = true ->
  properties s = [] ->
  parent s = Some pname ->
  style_map st !! pname = Some pa ->
  pa <> a ->
  heap st !! pa = Some po ->
  heavy po = true ->
  build_style renpy_easy T (S depth) (S fuel) a st = Ok tt st' ->
  exists c,
    heap st' !! a = Some (set_cache (Some c) s) /\
    exists po', heap st' !! pa = Some po' /\ cache po' = Some c.
Proof.
  intros Ha Hheavy Hprops Hparent Hname Hne Hpa Hpheavy Hrun.
  assert (Hwalk : walk (S fuel) (parent s) a [] st = Ok ([a], Some pa) st).
  { cbn [walk]. unfold bind, deref, get_state, ret.
    by rewrite Ha, Hparent, Hname, Hpa, Hpheavy. }
  cbn [build_style] in Hrun. unfold bind at 1 in Hrun. unfold deref at 1 in Hrun.
  rewrite Ha, Hheavy in Hrun. cbn [negb] in Hrun.
  unfold bind at 1 in Hrun. rewrite Hwalk in Hrun. cbn [fst snd] in Hrun.
  unfold bind at 1 in Hrun. unfold bind at 1 in Hrun. unfold deref at 1 in Hrun.
  rewrite Hpa in Hrun. unfold bind at 1 in Hrun.
  assert (Hsub :
    match (if cache_unset (cache po)
           then build_style renpy_easy T depth (S fuel) pa else ret tt) st with
    | Ok _ st1 => only_caches_set st st1
    | Raise _ st1 => True
    | OutOfFuel => True
    end).
  { destruct (cache_unset (cache po)); [|apply only_caches_set_refl].
    pose proof (build_style_spec renpy_easy T depth (S fuel) pa st) as H.
    destruct (build_style renpy_easy T depth (S fuel) pa st); [|done|done].
    by destruct H as [[H _] _]. }
  destruct ((if cache_unset (cache po)
             then build_style renpy_easy T depth (S fuel) pa else ret tt) st)
    as [[] st1|e st1|]; [|discriminate|discriminate].
  destruct Hsub as (_ & _ & _ & _ & Hh).
  unfold bind at 1 in Hrun. unfold deref at 1 in Hrun.
  destruct (heap st1 !! pa) as [po1|] eqn:Hpo1; [|discriminate].
  destruct (cache po1) as [pc|] eqn:Hpc; [|discriminate].
  cbn [ret] in Hrun. cbn [replay_styles] in Hrun.
  unfold bind at 1 in Hrun. unfold bind at 1 in Hrun. unfold deref at 1 in Hrun.
  assert (Ha1 : exists s1, heap st1 !! a = Some s1 /\ properties s1 = [] /\
                  set_cache (Some pc) s1 = set_cache (Some pc) s).
  { destruct (Hh a s Ha) as [H|(_ & c & H)]; eexists; (split; [exact H|]);
      by destruct s. }
  destruct Ha1 as (s1 & Ha1 & Hprops1 & Hset). rewrite Ha1, Hprops1 in Hrun.
  cbn in Hrun. unfold update in Hrun. rewrite Ha1 in Hrun.
  injection Hrun as <-. exists pc. cbn. split.
  - rewrite list_lookup_insert_eq; [by rewrite Hset|]. by eapply lookup_lt_Some.
  - exists po1. by rewrite list_lookup_insert_ne.
Qed.



(** *** Building on a parent that is ready *)

Lemma build_style_direct depth fuel st a s c0 :
  heap st !! a = Some s ->
  heavy s = true ->
  seed_ready st a s c0 T ->
  build_style renpy_easy T (S depth) (S fuel) a st
  = match replay_batches renpy_easy T (properties s) c0 with
    | inr c' => Ok tt (set_heap (<[a := set_cache (Some c') s]> (heap st)) st)
    | inl err => Raise err st
    end.
Proof.
  intros Ha Hheavy Hseed.
  cbn [build_style]. unfold bind at 1. unfold deref at 1.
  rewrite Ha, Hheavy. cbn [negb]. unfold bind at 1.
  destruct Hseed as [[Hparent ->]|
    (pname & pa & po & x & pc & Hparent & Hname & Hne & Hpa & Hpheavy & Hpc & ->)].
  - assert (Hwalk : walk (S fuel) (parent s) a [] st = Ok ([a], None) st).
    { cbn [walk]. unfold bind, deref, ret. by rewrite Ha, Hparent. }
    rewrite Hwalk. cbn [fst snd]. unfold bind at 1. cbn [ret].
    unfold bind at 1. cbn [replay_styles]. unfold bind at 1. unfold deref at 1.
    rewrite Ha.
    destruct (replay_batches renpy_easy T (properties s)
                (replicate (property_numbers T) VNone)); [done|].
    cbn [ret]. unfold update. by rewrite Ha.
  - assert (Hwalk : walk (S fuel) (parent s) a [] st = Ok ([a], Some pa) st).
    { cbn [walk]. unfold bind, deref, get_state, ret.
      by rewrite Ha, Hparent, Hname, Hpa, Hpheavy. }
    rewrite Hwalk. cbn [fst snd]. unfold bind at 1. unfold bind at 1.
    unfold deref at 1. rewrite Hpa. unfold bind at 1. rewrite Hpc.
    cbn [cache_unset ret]. unfold bind at 1. unfold deref at 1. rewrite Hpa, Hpc.
    cbn [ret]. unfold bind at 1. cbn [replay_styles]. unfold bind at 1.
    unfold deref at 1. rewrite Ha.
    destruct (replay_batches renpy_easy T (properties s) (x :: pc)); [done|].
    cbn [ret]. unfold update. by rewrite Ha.
Qed.

(** X9: building a style again right after it has been built changes
    nothing, when the style is a root or its parent is another heavy style
    that has a cache. *)
Theorem build_style_idempotent depth fuel depth' fuel' st st' a s c0 :
  heap st !! a = Some s ->
  heavy s = true ->
  seed_ready st a s c0 T ->
  build_style renpy_easy T (S depth) (S fuel) a st = Ok tt st' ->
  build_style renpy_easy T (S depth') (S fuel') a st' = Ok tt st'.
Proof.
  intros Ha Hheavy Hseed Hrun.
  rewrite (build_style_direct _ _ _ _ _ c0 Ha Hheavy Hseed) in Hrun.
  destruct (replay_batches renpy_easy T (properties s) c0) as [|c'] eqn:Hreplay;
    [discriminate|].
  injection Hrun as <-.
  assert (Hlt : a < length (heap st)) by (by eapply lookup_lt_Some).
  rewrite (build_style_direct _ _ _ _ (set_cache (Some c') s) c0).
  - cbn [properties set_cache]. rewrite Hreplay. cbn [heap set_heap].
    rewrite list_insert_insert_eq. by destruct s.
  - cbn. by rewrite list_lookup_insert_eq.
  - done.
  - destruct Hseed as [[Hparent ->]|
      (pname & pa & po & x & pc & Hparent & Hname & Hne & Hpa & Hpheavy & Hpc & ->)].
    + by left.
    + right. exists pname, pa, po, x, pc. repeat split; try done.
      cbn. by rewrite list_lookup_insert_ne.
Qed.

End BuiltFacts.

(** ** The style manager and the other methods of a style *)

Section ManagerFacts.

Import Style Props Tuples Frame Ranges StyleMore.

Variable renpy_easy : normalizer -> value -> value.
Variable T : tables.

(** *** The style manager *)

(** X10: a style that [create] has registered is the one the manager
    returns for its name, the other names keep their styles, and a name
    that is not registered is answered by an exception. *)
Theorem create_then_lookup depth fuel st st' name pname :
  create renpy_easy T depth fuel name (named pname) st = Ok tt st' ->
  StyleManager_getattr name st' = Ok (length (heap st)) st' /\
  exists_ name st' = true /\
  (forall other, other <> name ->
     StyleManager_getattr other st'
     = match style_map st !! other with
       | Some b => Ok b st'
       | None => Raise (Exception_ ("The style " +:+ other +:+ " does not exist.")) st'
       end).
Proof.
  intros H. apply create_returns in H as [Hm _].
  unfold StyleManager_getattr, exists_, bind, get_state, ret, raise.
  cbv beta iota. rewrite !Hm. split; [|split].
  - rewrite lookup_insert_eq. reflexivity.
  - rewrite lookup_insert_eq. by apply bool_decide_eq_true.
  - intros other Hne. rewrite lookup_insert_ne by done.
    by destruct (style_map st !! other).
Qed.

(** *** [clear], [setdefault] and [take] *)

(** X11: before the build, [clear] forgets every assignment, so that a root
    style built next has all its slots unset; once the global build has
    returned, [clear] is refused and changes nothing. *)
Theorem clear_before_and_after_build depth fuel st a s :
  heap st !! a = Some s ->
  heavy s = true ->
  parent s = None ->
  (styles_built st = false ->
   (clear a ;;; build_style renpy_easy T (S depth) (S fuel) a) st
   = Ok tt (set_heap
              (<[a := set_cache (Some (replicate (property_numbers T) VNone))
                        (set_properties [] s)]> (heap st)) st)) /\
  (forall st', build_styles renpy_easy T depth fuel st = Ok tt st' ->
     clear a st'
     = Raise (Exception_ "Cannot clear a style after styles have been built.") st').
Proof.
  intros Ha Hheavy Hparent. split.
  - intros Hbuilt. unfold clear. unfold bind at 1. unfold bind at 1. cbn [get_state].
    rewrite Hbuilt. unfold update. rewrite Ha.
    assert (Hlt : a < length (heap st)) by (by eapply lookup_lt_Some).
    rewrite (build_style_direct _ _ _ _ _ _ (set_properties [] s)
               (replicate (property_numbers T) VNone)).
    + cbn. by rewrite list_insert_insert_eq.
    + cbn. by rewrite list_lookup_insert_eq.
    + done.
    + by left.
  - intros st' H. apply build_styles_clears_pending in H as [_ Hb].
    unfold clear, bind, get_state, raise. by rewrite Hb.
Qed.





(** X13: before the build, a style that takes the properties of another one
    is built to the same cache as the other, when both are roots or both
    build upon the cache of the same heavy parent. *)
Theorem take_resolves_alike depth fuel st st' a b sa sb c0 :
  styles_built st = false ->
  a <> b ->
  heap st !! a = Some sa ->
  heap st !! b = Some sb ->
  heavy sa = true ->
  heavy sb = true ->
  seed_ready st a sa c0 T ->
  seed_ready st b sb c0 T ->
  (forall pn, parent sa = Some pn -> style_map st !! pn <> Some b) ->
  (forall pn, parent sb = Some pn -> style_map st !! pn <> Some a) ->
  (take renpy_easy T (S depth) (S fuel) a b ;;;
   build_style renpy_easy T (S depth) (S fuel) b ;;;
   build_style renpy_easy T (S depth) (S fuel) a) st = Ok tt st' ->
  exists c sa' sb',
    heap st' !! a = Some sa' /\ cache sa' = Some c /\
    heap st' !! b = Some sb' /\ cache sb' = Some c.
Proof.
  intros Hbuilt Hab Ha Hb Hha Hhb Hseeda Hseedb Hpa Hpb Hrun.
  assert (Hlta : a < length (heap st)) by (by eapply lookup_lt_Some).
  assert (Hltb : b < length (heap st)) by (by eapply lookup_lt_Some).
  unfold take in Hrun. unfold bind at 1 in Hrun. unfold bind at 1 in Hrun.
  unfold deref at 1 in Hrun. rewrite Hb in Hrun.
  unfold bind at 1 in Hrun. unfold update at 1 in Hrun. rewrite Ha in Hrun.
  unfold bind at 1 in Hrun. cbn [get_state styles_built set_heap] in Hrun.
  rewrite Hbuilt in Hrun. cbn [ret] in Hrun.
  set (sa1 := set_properties (properties sb) sa) in *.
  set (st1 := set_heap (<[a := sa1]> (heap st)) st) in *.
  unfold bind at 1 in Hrun.
  rewrite (build_style_direct renpy_easy T _ _ st1 b sb c0) in Hrun.
  2:{ cbn. by rewrite list_lookup_insert_ne. }
  2:{ done. }
  2:{ destruct Hseedb as [?|(pn & pa & po & x & pc & Hp & Hn & Hne & Hpo & Hh & Hc & ->)];
        [by left|right].
      exists pn, pa, po, x, pc. repeat split; try done. cbn.
      rewrite list_lookup_insert_ne; [done|]. intros <-. by apply (Hpb pn). }
  destruct (replay_batches renpy_easy T (properties sb) c0) as [|cb] eqn:Hreplay;
    [discriminate|].
  set (st2 := set_heap (<[b := set_cache (Some cb) sb]> (heap st1)) st1) in *.
  rewrite (build_style_direct renpy_easy T _ _ st2 a sa1 c0) in Hrun.
  2:{ cbn. rewrite list_lookup_insert_ne by done. by rewrite list_lookup_insert_eq. }
  2:{ done. }
  2:{ destruct Hseeda as [?|(pn & pa & po & x & pc & Hp & Hn & Hne & Hpo & Hh & Hc & ->)];
        [by left|right].
      exists pn, pa, po, x, pc. repeat split; try done. cbn.
      rewrite list_lookup_insert_ne; [|intros <-; by apply (Hpa pn)].
      by rewrite list_lookup_insert_ne. }
  cbn [properties sa1 set_properties] in Hrun. rewrite Hreplay in Hrun.
  injection Hrun as <-. exists cb. do 2 eexists. cbn.
  rewrite list_lookup_insert_eq by (by rewrite !length_insert).
  split; [done|]. split; [done|].
  rewrite list_lookup_insert_ne by done.
  rewrite list_lookup_insert_eq by (by rewrite length_insert). done.
Qed.

End ManagerFacts.

(** ** The operations of the store *)

Section StoreLaws.

Import JSONDB JSONDBMore Store Examples.

Lemma get_dict_touched s :
  guard_passes s -> get_dict s = Ok (current_key s) (touched s).
Proof.
  intros Hg. unfold get_dict, touched, stored, bind, ret, raise, get_state, put_state.
  destruct (current_key s) as [k|] eqn:Hk.
  - destruct (data s !! Some k) as [d|] eqn:Hd; cbn.
    + rewrite insert_id by done. by destruct s.
    + done.
  - rewrite (Hg Hk). destruct (data s !! None) as [d|] eqn:Hd; cbn.
    + rewrite insert_id by done. by destruct s.
    + done.
Qed.

Lemma get_dict_refused s :
  current_key s = None -> developer s = true ->
  get_dict s = Raise (Exception_ "Accessing JSONDB with a None key.") s.
Proof.
  intros Hk Hd. unfold get_dict, bind, get_state, raise. by rewrite Hk, Hd.
Qed.

Lemma the_dict_touched s :
  the_dict (current_key s) (touched s) = Ok (stored s) (touched s).
Proof.
  unfold the_dict, touched, bind, get_state, ret. cbn.
  by rewrite lookup_insert_eq.
Qed.

Lemma touched_idem s : touched (touched s) = touched s.
Proof.
  unfold touched, stored, current_key. cbn. rewrite lookup_insert_eq. cbn.
  by rewrite insert_insert_eq.
Qed.

Lemma stored_touched s : stored (touched s) = stored s.
Proof. unfold touched, stored, current_key. cbn. by rewrite lookup_insert_eq. Qed.


Lemma put_dict_touched s d :
  put_dict (current_key s) d (touched s) = Ok tt (with_stored d s).
Proof.
  unfold put_dict, touched, with_stored, bind, get_state, put_state. cbn.
  by rewrite insert_insert_eq.
Qed.

Lemma guard_passes_dirty s b : guard_passes s -> guard_passes (set_dirty b s).
Proof. done. Qed.

(** The guard of [get_dict] either passes or refuses. *)
Lemma guard_cases s :
  guard_passes s \/ (current_key s = None /\ developer s = true).
Proof.
  unfold guard_passes. destruct (current_key s); [by left|].
  destruct (developer s); [by right|by left].
Qed.

(** **** What each operation does when the guard passes *)

Lemma getitem_spec s x :
  guard_passes s ->
  getitem x s = match stored s !! x with
                | Some v => Ok v (touched s)
                | None => Raise (KeyError x) (touched s)
                end.
Proof.
  intros Hg. unfold getitem, bind. rewrite (get_dict_touched s Hg), the_dict_touched.
  by destruct (stored s !! x).
Qed.

Lemma contains_spec s x :
  guard_passes s ->
  contains x s = Ok (bool_decide (is_Some (stored s !! x))) (touched s).
Proof.
  intros Hg. unfold contains, bind.
  by rewrite (get_dict_touched s Hg), the_dict_touched.
Qed.

Lemma get_spec s x dflt :
  guard_passes s ->
  get x dflt s = Ok (from_option id dflt (stored s !! x)) (touched s).
Proof.
  intros Hg. unfold get, bind.
  by rewrite (get_dict_touched s Hg), the_dict_touched.
Qed.

Lemma len_spec s :
  guard_passes s -> len_ s = Ok (size (stored s)) (touched s).
Proof.
  intros Hg. unfold len_, bind.
  by rewrite (get_dict_touched s Hg), the_dict_touched.
Qed.

Lemma iter_spec s :
  guard_passes s -> iter_ s = Ok (fst <$> map_to_list (stored s)) (touched s).
Proof.
  intros Hg. unfold iter_, bind.
  by rewrite (get_dict_touched s Hg), the_dict_touched.
Qed.

Lemma check_passes s v :
  developer s = true -> serializable v = true -> check v s = Ok tt s.
Proof.
  intros Hd Hv. unfold check, bind, get_state, ret. by rewrite Hd, Hv.
Qed.

Lemma check_refuses s v :
  developer s = false \/ serializable v = false ->
  exists e, check v s = Raise e s /\
    e = if developer s
        then TypeError "The data is not JSON serializable."
        else RuntimeError "A JSONDB can only be modified when config.developer is True.".
Proof.
  intros H. unfold check, bind, get_state, ret, raise.
  destruct (developer s); cbn.
  - destruct H as [H|H]; [done|]. rewrite H. by eexists.
  - by eexists.
Qed.

Lemma setitem_spec s x v :
  guard_passes s -> developer s = true -> serializable v = true ->
  setitem x v s = Ok tt (set_dirty true (with_stored (<[x := v]> (stored s)) s)).
Proof.
  intros Hg Hd Hv. unfold setitem. unfold bind at 1. rewrite check_passes by done.
  unfold bind at 1. rewrite (get_dict_touched s Hg).
  unfold bind at 1. rewrite the_dict_touched.
  unfold bind at 1. rewrite put_dict_touched. done.
Qed.

Lemma delitem_spec s x :
  guard_passes s ->
  delitem x s = match stored s !! x with
                | Some _ => Ok tt (with_stored (delete x (stored s)) (set_dirty true s))
                | None => Raise (KeyError x) (touched (set_dirty true s))
                end.
Proof.
  intros Hg. unfold delitem. unfold bind at 1. unfold bind at 1. cbn [get_state put_state].
  unfold bind at 1. rewrite (get_dict_touched (set_dirty true s)) by done.
  unfold bind at 1. rewrite the_dict_touched.
  change (stored (set_dirty true s)) with (stored s).
  destruct (stored s !! x); [|done].
  apply (put_dict_touched (set_dirty true s)).
Qed.

Lemma clear_spec s :
  guard_passes s -> clear s = Ok tt (with_stored ∅ (set_dirty true s)).
Proof.
  intros Hg. unfold clear. unfold bind at 1. unfold bind at 1. cbn [get_state put_state].
  unfold bind at 1. rewrite (get_dict_touched (set_dirty true s)) by done.
  apply (put_dict_touched (set_dirty true s)).
Qed.

Lemma pop_spec s x dflt :
  guard_passes s ->
  pop x dflt s = match stored s !! x with
                 | Some v => Ok v (with_stored (delete x (stored s)) (set_dirty true s))
                 | None => Ok dflt (touched (set_dirty true s))
                 end.
Proof.
  intros Hg. unfold pop. unfold bind at 1. unfold bind at 1. cbn [get_state put_state].
  unfold bind at 1. rewrite (get_dict_touched (set_dirty true s)) by done.
  unfold bind at 1. rewrite the_dict_touched.
  change (stored (set_dirty true s)) with (stored s).
  destruct (stored s !! x); [|done].
  unfold bind. by rewrite (put_dict_touched (set_dirty true s)).
Qed.

Lemma ior_spec s items :
  guard_passes s ->
  ior items s = Ok tt (with_stored (dict_of items ∪ stored s) (set_dirty true s)).
Proof.
  intros Hg. unfold ior. unfold bind at 1. unfold bind at 1. cbn [get_state put_state].
  unfold bind at 1. rewrite (get_dict_touched (set_dirty true s)) by done.
  unfold bind at 1. rewrite the_dict_touched.
  apply (put_dict_touched (set_dirty true s)).
Qed.

Lemma update_spec s items :
  guard_passes s -> developer s = true ->
  serializable (PDict (map_to_list (dict_of items))) = true ->
  update items s
  = Ok tt (with_stored (dict_of items ∪ stored s) (set_dirty true s)).
Proof.
  intros Hg Hd Hv. unfold update. unfold bind at 1. unfold bind at 1.
  cbn [get_state put_state]. unfold bind at 1.
  rewrite (check_passes (set_dirty true s)) by done.
  unfold bind at 1. rewrite (get_dict_touched (set_dirty true s)) by done.
  unfold bind at 1. rewrite the_dict_touched.
  apply (put_dict_touched (set_dirty true s)).
Qed.

Lemma setdefault_spec s x dflt :
  guard_passes s ->
  setdefault x dflt s
  = match stored s !! x with
    | Some v => Ok v (touched s)
    | None =>
        if developer s
        then if serializable dflt
             then Ok dflt (set_dirty true (with_stored (<[x := dflt]> (stored s)) s))
             else Raise (TypeError "The data is not JSON serializable.") (touched s)
        else Raise (RuntimeError "A JSONDB can only be modified when config.developer is True.")
                   (touched s)
    end.
Proof.
  intros Hg. unfold setdefault. unfold bind at 1. rewrite (get_dict_touched s Hg).
  unfold bind at 1. rewrite the_dict_touched.
  destruct (stored s !! x); [done|].
  unfold bind at 1. unfold check, bind at 1, get_state.
  change (developer (touched s)) with (developer s).
  destruct (developer s); cbn [negb]; [|done].
  destruct (serializable dflt); [|done].
  unfold bind, ret, get_state, put_state.
  change (set_dirty true (touched s)) with (touched (set_dirty true s)).
  rewrite (put_dict_touched (set_dirty true s)). done.
Qed.


Lemma stored_with_stored d s : stored (with_stored d s) = d.
Proof. unfold stored, with_stored, current_key. cbn. by rewrite lookup_insert_eq. Qed.

Lemma touched_with_stored d s : touched (with_stored d s) = with_stored d s.
Proof.
  unfold touched. rewrite stored_with_stored. unfold with_stored, current_key. cbn.
  by rewrite insert_insert_eq.
Qed.

Lemma confined_refl s : confined s s.
Proof. by repeat split. Qed.

Lemma confined_with_stored d s : confined s (with_stored d s).
Proof.
  repeat split. intros k Hk. cbn. by rewrite lookup_insert_ne.
Qed.

Lemma confined_touched s : confined s (touched s).
Proof. apply confined_with_stored. Qed.

(** **** Item assignment *)

(** X14: in developer mode, an item assigned a JSON value is read back,
    the other items of the current dictionary read as before, and the
    store is marked dirty. *)
Theorem setitem_then_getitem s x v :
  guard_passes s ->
  developer s = true ->
  serializable v = true ->
  exists s',
    setitem x v s = Ok tt s' /\
    getitem x s' = Ok v s' /\
    dirty s' = true /\
    forall y, y <> x -> returned (getitem y s') = returned (getitem y s).
Proof.
  intros Hg Hd Hv. eexists. split; [by apply setitem_spec|].
  set (s1 := with_stored (<[x := v]> (stored s)) s).
  assert (Hg1 : guard_passes (set_dirty true s1)) by done.
  assert (Hst : stored (set_dirty true s1) = <[x := v]> (stored s))
    by apply (stored_with_stored _ s).
  assert (Ht : touched (set_dirty true s1) = set_dirty true s1).
  { change (touched (set_dirty true s1)) with (set_dirty true (touched s1)).
    unfold s1. by rewrite touched_with_stored. }
  split; [|split; [done|]].
  - rewrite getitem_spec, Hst, Ht by done. by rewrite lookup_insert_eq.
  - intros y Hy. rewrite !getitem_spec, Hst by done.
    rewrite lookup_insert_ne by done. by destruct (stored s !! y).
Qed.

(** X15: an assignment that [check] refuses, because developer mode is off
    or because the value is not JSON, leaves the store exactly as it
    was. *)
Theorem setitem_rejects_atomically s x v :
  developer s = false \/ serializable v = false ->
  setitem x v s
  = Raise (if developer s
           then TypeError "The data is not JSON serializable."
           else RuntimeError "A JSONDB can only be modified when config.developer is True.")
          s.
Proof.
  intros H. destruct (check_refuses s v H) as (e & He & ->).
  unfold setitem, bind. by rewrite He.
Qed.

(** **** Reads *)

(** X16: a read that returns leaves a state that further reads do not
    change, and does not mark the store dirty: the default dictionary it
    may have filed under the current key is not scheduled for saving. *)
Theorem reads_are_stable s s' x dflt :
  (forall v, getitem x s = Ok v s' ->
     getitem x s' = Ok v s' /\ dirty s' = dirty s) /\
  (forall b, contains x s = Ok b s' ->
     contains x s' = Ok b s' /\ dirty s' = dirty s) /\
  (forall v, get x dflt s = Ok v s' ->
     get x dflt s' = Ok v s' /\ dirty s' = dirty s) /\
  (forall n, len_ s = Ok n s' -> len_ s' = Ok n s' /\ dirty s' = dirty s) /\
  (forall l, iter_ s = Ok l s' -> iter_ s' = Ok l s' /\ dirty s' = dirty s).
Proof.
  destruct (guard_cases s) as [Hg|[Hk Hd]].
  - assert (Hg' : guard_passes (touched s)) by done.
    split; [|split; [|split; [|split]]]; intros r Hr.
    all: first [rewrite getitem_spec in Hr by done
               |rewrite contains_spec in Hr by done
               |rewrite get_spec in Hr by done
               |rewrite len_spec in Hr by done
               |rewrite iter_spec in Hr by done].
    all: try (destruct (stored s !! x) eqn:Hx; [|discriminate]).
    all: injection Hr as <- <-.
    all: first [rewrite getitem_spec by done
               |rewrite contains_spec by done
               |rewrite get_spec by done
               |rewrite len_spec by done
               |rewrite iter_spec by done
               |idtac].
    all: rewrite ?stored_touched, ?touched_idem, ?Hx; by split.
  - pose proof (get_dict_refused s Hk Hd) as Hraise.
    unfold getitem, contains, get, len_, iter_, bind. rewrite Hraise.
    split; [|split; [|split; [|split]]]; discriminate.
Qed.

(** X17: containment, [get] and item access agree: a name is contained
    exactly when item access returns its value, which is then what [get]
    returns; for a name that is not contained, item access raises
    [KeyError] and [get] returns its default. *)
Theorem contains_agrees_with_getitem s s' x b dflt :
  contains x s = Ok b s' ->
  if b
  then exists v, getitem x s = Ok v s' /\ get x dflt s = Ok v s'
  else getitem x s = Raise (KeyError x) s' /\ get x dflt s = Ok dflt s'.
Proof.
  destruct (guard_cases s) as [Hg|[Hk Hd]].
  - rewrite contains_spec, getitem_spec, get_spec by done. intros [= <- <-].
    destruct (stored s !! x) as [v|] eqn:Hx; cbn; [by exists v|done].
  - unfold contains, bind. by rewrite (get_dict_refused s Hk Hd).
Qed.


(** **** The other keys *)

Lemma confined_dirty b s s' : confined (set_dirty b s) s' -> confined s s'.
Proof. done. Qed.

Ltac confine_by spec :=
  let s := fresh "s" in
  intros s; destruct (guard_cases s) as [Hg|[Hk Hd]];
  [ rewrite spec by done;
    repeat match goal with
           | |- context [stored ?s0 !! ?y] => destruct (stored s0 !! y)
           | |- context [if developer ?s0 then _ else _] => destruct (developer s0)
           | |- context [if serializable ?w then _ else _] => destruct (serializable w)
           end;
    first [apply confined_touched | apply confined_with_stored
          | apply (confined_dirty true), confined_touched
          | apply (confined_dirty true), confined_with_stored
          | apply confined_refl | done]
  | idtac ].

(** X18: no operation of the store, however it ends, changes the
    dictionary filed under a key other than the current one, nor the
    default dictionary, the key function or the file name; and none
    runs for ever. *)
Theorem operations_are_confined x v dflt items :
  always confined (getitem x) /\
  always confined (contains x) /\
  always confined (get x dflt) /\
  always confined len_ /\
  always confined iter_ /\
  always confined (setitem x v) /\
  always confined (delitem x) /\
  always confined clear /\
  always confined (pop x dflt) /\
  always confined (update items) /\
  always confined (ior items) /\
  always confined (setdefault x dflt).
Proof.
  assert (Hread : forall s, current_key s = None -> developer s = true ->
            forall {A} (k : option string -> M state A),
              match bind get_dict k s with
              | Ok _ s' => confined s s'
              | Raise _ s' => confined s s'
              | OutOfFuel => False
              end).
  { intros s Hk Hd A k. unfold bind. rewrite (get_dict_refused s Hk Hd).
    apply confined_refl. }
  assert (Hwrite : forall s, current_key s = None -> developer s = true ->
            forall {A} (k : option string -> M state A),
              match bind (s0 <- get_state ;; put_state (set_dirty true s0))
                         (fun _ => bind get_dict k) s with
              | Ok _ s' => confined s s'
              | Raise _ s' => confined s s'
              | OutOfFuel => False
              end).
  { intros s Hk Hd A k. unfold bind at 1. unfold bind at 1. cbn [get_state put_state].
    apply (Hread (set_dirty true s) Hk Hd A k). }
  split; [|split; [|split; [|split; [|split; [|split; [|split; [|split;
    [|split; [|split; [|split]]]]]]]]]].
  - confine_by getitem_spec. apply (Hread s Hk Hd).
  - confine_by contains_spec. apply (Hread s Hk Hd).
  - confine_by get_spec. apply (Hread s Hk Hd).
  - confine_by len_spec. apply (Hread s Hk Hd).
  - confine_by iter_spec. apply (Hread s Hk Hd).
  - intros s. unfold setitem. unfold bind at 1.
    destruct (developer s) eqn:Hd, (serializable v) eqn:Hv.
    + rewrite check_passes by done.
      destruct (guard_cases s) as [Hg|[Hk _]].
      * pose proof (setitem_spec s x v Hg Hd Hv) as H. unfold setitem in H.
        unfold bind at 1 in H. rewrite check_passes in H by done. rewrite H.
        apply (confined_with_stored _ s).
      * unfold bind. rewrite (get_dict_refused s Hk Hd). apply confined_refl.
    + destruct (check_refuses s v) as (e & -> & _); [by right|apply confined_refl].
    + destruct (check_refuses s v) as (e & -> & _); [by left|apply confined_refl].
    + destruct (check_refuses s v) as (e & -> & _); [by left|apply confined_refl].
  - confine_by delitem_spec. apply (Hwrite s Hk Hd).
  - confine_by clear_spec. apply (Hwrite s Hk Hd).
  - confine_by pop_spec. apply (Hwrite s Hk Hd).
  - intros s. unfold update. unfold bind at 1. unfold bind at 1.
    cbn [get_state put_state]. unfold bind at 1.
    destruct (developer s) eqn:Hd,
      (serializable (PDict (map_to_list (dict_of items)))) eqn:Hv.
    + rewrite (check_passes (set_dirty true s)) by done.
      destruct (guard_cases s) as [Hg|[Hk _]].
      * pose proof (update_spec s items Hg Hd Hv) as H. unfold update in H.
        unfold bind at 1 in H. unfold bind at 1 in H. cbn [get_state put_state] in H.
        unfold bind at 1 in H. rewrite (check_passes (set_dirty true s)) in H by done.
        rewrite H. apply (confined_with_stored _ (set_dirty true s)).
      * unfold bind. rewrite (get_dict_refused (set_dirty true s)) by done.
        apply (confined_dirty true), confined_refl.
    + destruct (check_refuses (set_dirty true s) (PDict (map_to_list (dict_of items))))
        as (e & -> & _); [by right|apply (confined_dirty true), confined_refl].
    + destruct (check_refuses (set_dirty true s) (PDict (map_to_list (dict_of items))))
        as (e & -> & _); [by left|apply (confined_dirty true), confined_refl].
    + destruct (check_refuses (set_dirty true s) (PDict (map_to_list (dict_of items))))
        as (e & -> & _); [by left|apply (confined_dirty true), confined_refl].
  - confine_by ior_spec. apply (Hwrite s Hk Hd).
  - confine_by setdefault_spec. apply (Hread s Hk Hd).
Qed.


(** **** [update], [|=] and [setdefault] *)



Lemma dict_of_snoc items x v : dict_of (items ++ [(x, v)]) = <[x := v]> (dict_of items).
Proof. unfold dict_of. by rewrite fold_left_app. Qed.


Lemma getitem_with_stored d s b x :
  guard_passes s ->
  getitem x (set_dirty b (with_stored d s))
  = match d !! x with
    | Some v => Ok v (set_dirty b (with_stored d s))
    | None => Raise (KeyError x) (set_dirty b (with_stored d s))
    end.
Proof.
  intros Hg. rewrite getitem_spec by done.
  change (stored (set_dirty b (with_stored d s))) with (stored (with_stored d s)).
  change (touched (set_dirty b (with_stored d s)))
    with (set_dirty b (touched (with_stored d s))).
  by rewrite stored_with_stored, touched_with_stored.
Qed.


(** X20: the operator [|=] stores its items without any check: it goes
    through with developer mode off and with values that are not JSON,
    and marks the store dirty. *)
Theorem ior_skips_check s items x v :
  guard_passes s ->
  exists s',
    ior (items ++ [(x, v)]) s = Ok tt s' /\
    getitem x s' = Ok v s' /\
    dirty s' = true.
Proof.
  intros Hg. eexists. split; [by apply ior_spec|].
  change (with_stored ?d (set_dirty true s)) with (set_dirty true (with_stored d s)).
  split; [|done]. rewrite getitem_with_stored by done.
  by rewrite dict_of_snoc, lookup_union_l', lookup_insert_eq
    by (rewrite lookup_insert_eq; by eexists).
Qed.

(** X21: [setdefault] never replaces a stored item: for a name that is
    stored it returns the stored value, without any check and without
    marking the store dirty; for a name that is not stored it is checked
    like an assignment, and when it returns the default is what is read
    next. *)
Theorem setdefault_never_overwrites s x dflt :
  guard_passes s ->
  (forall v, stored s !! x = Some v ->
     setdefault x dflt s = Ok v (touched s) /\
     getitem x (touched s) = Ok v (touched s) /\
     dirty (touched s) = dirty s) /\
  (stored s !! x = None ->
   forall r s', setdefault x dflt s = Ok r s' ->
     r = dflt /\ developer s = true /\ serializable dflt = true /\
     getitem x s' = Ok dflt s' /\ dirty s' = true).
Proof.
  intros Hg. split.
  - intros v Hx. rewrite setdefault_spec, Hx by done. split; [done|]. split; [|done].
    rewrite getitem_spec by done. by rewrite stored_touched, touched_idem, Hx.
  - intros Hx r s'. rewrite setdefault_spec, Hx by done.
    destruct (developer s); [|discriminate].
    destruct (serializable dflt); [|discriminate].
    intros [= <- <-]. repeat split.
    rewrite getitem_with_stored by done. by rewrite lookup_insert_eq.
Qed.

(** **** Removal *)

(** X22: deleting a stored item and popping it leave the same state, in
    which the name is no longer contained and the other items read as
    before; for a name that is not stored, deletion raises [KeyError]
    while [pop] returns its default, and both still mark the store
    dirty. *)
Theorem delitem_and_pop s x dflt :
  guard_passes s ->
  match stored s !! x with
  | Some v =>
      exists s',
        delitem x s = Ok tt s' /\ pop x dflt s = Ok v s' /\
        contains x s' = Ok false s' /\ dirty s' = true /\
        forall y, y <> x -> returned (getitem y s') = returned (getitem y s)
  | None =>
      exists s',
        delitem x s = Raise (KeyError x) s' /\ pop x dflt s = Ok dflt s' /\
        dirty s' = true
  end.
Proof.
  intros Hg. rewrite delitem_spec, pop_spec by done.
  destruct (stored s !! x) as [v|] eqn:Hx.
  - eexists. split; [done|]. split; [done|].
    change (with_stored ?d (set_dirty true s)) with (set_dirty true (with_stored d s)).
    split; [|split; [done|]].
    + rewrite contains_spec by done.
      change (stored (set_dirty true ?s0)) with (stored s0).
      change (touched (set_dirty true ?s0)) with (set_dirty true (touched s0)).
      rewrite stored_with_stored, touched_with_stored, lookup_delete_eq.
      done.
    + intros y Hy. rewrite getitem_with_stored, getitem_spec by done.
      rewrite lookup_delete_ne by done. by destruct (stored s !! y).
  - by eexists.
Qed.

(** X23: after [clear] the current dictionary is empty: its length is
    zero and it contains no name. *)
Theorem clear_empties s x :
  guard_passes s ->
  exists s',
    clear s = Ok tt s' /\ len_ s' = Ok 0 s' /\ contains x s' = Ok false s' /\
    dirty s' = true.
Proof.
  intros Hg. eexists. split; [by apply clear_spec|].
  change (with_stored ?d (set_dirty true s)) with (set_dirty true (with_stored d s)).
  rewrite len_spec, contains_spec by done.
  change (stored (set_dirty true ?s0)) with (stored s0).
  change (touched (set_dirty true ?s0)) with (set_dirty true (touched s0)).
  rewrite stored_with_stored, touched_with_stored. done.
Qed.

End StoreLaws.

(** ** Slots that are not assigned, failed prefixes, snapshots *)

Section FrameFacts.

Import Style Props Tuples Frame Ranges StyleMore Examples.

Variable renpy_easy : normalizer -> value -> value.
Variable T : tables.

(** X24: a slot that no property of the replayed batches expands to keeps
    the value the cache was seeded with, and the cache keeps its
    length: what a style does not set, it inherits. *)
Theorem unnamed_slots_are_kept ps : forall c c' i,
  replay_batches renpy_easy T ps c = inr c' ->
  (forall items p w, items ∈ ps -> (p, i, w) ∉ batch_tuples renpy_easy T items) ->
  length c' = length c /\ c' !! i = c !! i.
Proof.
  induction ps as [|items ps IH]; intros c c' i Hrun Hnone.
  - by injection Hrun as <-.
  - cbn [replay_batches] in Hrun.
    destruct (expand_properties renpy_easy T items) as [err|ts] eqn:Hts; [discriminate|].
    destruct (store_triples ts c) as [err|c1] eqn:Hc1; [discriminate|].
    destruct (store_triples_spec ts c c1 Hc1) as [Hlen Hget].
    destruct (IH c1 c' i Hrun) as [Hlen' Hget'].
    { intros items' p w Hin. apply Hnone. by right. }
    split; [congruence|]. rewrite Hget', Hget.
    destruct (last_write ts i) as [w|] eqn:Hw; [|done].
    exfalso. apply last_write_Some in Hw as [p Hp].
    apply expand_properties_tuples in Hts. subst ts.
    rewrite <- sort_perm in Hp. by apply (Hnone items p w); [left|].
Qed.

(** X25: [set_prefix] with a prefix that has no storage raises [KeyError]
    after the prefix of the style has been replaced and before its offset
    is: the style then reads the same cells as before. *)
Theorem set_prefix_unknown st a s p P :
  heap st !! a = Some s ->
  prefix_offset T !! p = None ->
  set_prefix T a p st
  = Raise (KeyError p) (set_heap (<[a := set_prefix_field p s]> (heap st)) st) /\
  returned (getter T a P (set_heap (<[a := set_prefix_field p s]> (heap st)) st))
  = returned (getter T a P st).
Proof.
  intros Ha Hp. split.
  - unfold set_prefix, prefix_offset_get, update, bind, raise. by rewrite Ha, Hp.
  - unfold getter, deref, bind. destruct (property_number T !! P); [|done].
    cbn [heap set_heap]. rewrite Ha.
    rewrite list_lookup_insert_eq by (by eapply lookup_lt_Some).
    cbn [cache offset set_prefix_field].
    destruct (cache s) as [c|]; [|done]. by destruct (c !! (offset s + n)).
Qed.

(** *** [restore] of a snapshot just taken *)

Lemma backup_items_values items : forall rv st o,
  backup_items items rv st = Ok o st ->
  forall k v, o !! k = Some v ->
    rv !! k = Some v \/
    exists a s, (k, a) ∈ items /\ heap st !! a = Some s /\ v = properties s.
Proof.
  induction items as [|[k0 a0] rest IH]; intros rv st o Hrun k v Hk.
  - injection Hrun as <-. by left.
  - cbn [backup_items] in Hrun. unfold bind, deref in Hrun.
    destruct (heap st !! a0) as [s0|] eqn:Hs0; [|discriminate].
    destruct (IH _ _ _ Hrun k v Hk) as [H|(a & s & Hin & Hs & ->)].
    + destruct (decide (k0 = k)) as [->|Hne].
      * rewrite lookup_insert_eq in H. injection H as <-.
        right. exists a0, s0. split; [by left|done].
      * rewrite lookup_insert_ne in H by done. by left.
    + right. exists a, s. split; [by right|done].
Qed.

(** X26: restoring the snapshot that [backup()] has just returned changes
    no style object; it clears [styles_built] and makes the registered
    styles the pending ones. *)
Theorem restore_of_backup st :
  valid_map st ->
  distinct_styles st ->
  exists o st' pending,
    backup st = Ok o st /\
    restore o st = Ok tt st' /\
    heap st' = heap st /\
    style_map st' = style_map st /\
    styles_built st' = false /\
    styles_pending st' = Some pending /\
    forall a, a ∈ pending <-> exists k, style_map st !! k = Some a.
Proof.
  intros Hvalid Hdist.
  destruct (backup_names_registered st Hvalid Hdist) as (o & Hbackup & Hreg & Hinj).
  assert (Hdom : forall k, is_Some (o !! k) <-> is_Some (style_map st !! k)).
  { intros k. unfold backup, bind, get_state in Hbackup.
    destruct (backup_items_spec (map_to_list (style_map st)) ∅ st) as (o' & Ho' & Hd).
    { intros k' a Hin. apply elem_of_map_to_list in Hin. by eapply Hvalid. }
    rewrite Hbackup in Ho'. injection Ho' as <-. rewrite Hd.
    split.
    - intros [[? H]|H]; [by rewrite lookup_empty in H|].
      apply list_elem_of_fmap in H as ([k' a] & -> & Hin).
      apply elem_of_map_to_list in Hin. by exists a.
    - intros [a Ha]. right. apply list_elem_of_fmap. exists (k, a).
      split; [done|]. by apply elem_of_map_to_list. }
  assert (Hvals : forall k v a s, o !! k = Some v -> style_map st !! k = Some a ->
            heap st !! a = Some s -> v = properties s).
  { intros k v a s Hk Ha Hs. unfold backup, bind, get_state in Hbackup.
    destruct (backup_items_values _ _ _ _ Hbackup k v Hk)
      as [H|(a' & s' & Hin & Hs' & ->)]; [by rewrite lookup_empty in H|].
    apply elem_of_map_to_list in Hin. congruence. }
  set (st0 := set_styles_built false (set_styles_pending (Some []) st)).
  destruct (restore_loop (map_to_list o) st0 []) as
    (st' & Hrun & Hm & Hb & Hp & Hl & Hh).
  { apply NoDup_fst_map_to_list. }
  { intros k v Hin. apply elem_of_map_to_list in Hin. apply Hreg. by exists v. }
  { intros k1 v1 k2 v2 a H1 H2. apply elem_of_map_to_list in H1, H2.
    apply Hinj; by eexists. }
  { done. }
  exists o, st', (omap (fun kv => style_map st !! kv.1) (map_to_list o)).
  split; [done|]. split; [exact Hrun|]. split.
  { apply list_eq. intros a. destruct (heap st !! a) as [s|] eqn:Hs.
    - destruct (Hh a s Hs) as (_ & Hset & Hkeep).
      destruct (decide (a ∈ (map_to_list (style_map st)).*2)) as [Hyes|Hno].
      + apply list_elem_of_fmap in Hyes as ([k a'] & Heq & Hk).
        cbn in Heq. subst a'. apply elem_of_map_to_list in Hk.
        destruct (proj2 (Hdom k)) as [v Hv]; [by eexists|].
        rewrite (Hset k v); [|by apply elem_of_map_to_list|done].
        rewrite (Hvals k v a s Hv Hk Hs). by destruct s.
      + apply Hkeep. intros k v _ Hk. apply Hno.
        apply list_elem_of_fmap. exists (k, a). split; [done|].
        by apply elem_of_map_to_list.
    - apply lookup_ge_None. rewrite Hl. by apply lookup_ge_None. }
  split; [done|]. split; [done|]. split; [done|].
  intros a. rewrite list_elem_of_omap. split.
  - intros ([k v] & _ & Hk). by exists k.
  - intros [k Hk]. destruct (proj2 (Hdom k)) as [v Hv]; [by eexists|].
    exists (k, v). split; [by apply elem_of_map_to_list|done].
Qed.

End FrameFacts.

(** ** The tables *)

Section TableFacts.

Import Style Props Tuples Frame Ranges Cells StyleMore Examples MoreExamples.

Lemma distinctb_NoDup l : distinctb l = true -> NoDup l.
Proof.
  induction l as [|x l IH]; cbn; [constructor|].
  intros H. apply andb_prop in H as [Hx Hl]. constructor; [|by apply IH].
  intros Hin. apply negb_true_iff in Hx.
  assert (existsb (Nat.eqb x) l = true); [|congruence].
  apply existsb_exists. exists x. split; [by apply list_elem_of_In|].
  apply Nat.eqb_refl.
Qed.

Lemma NoDup_fmap_inj {A B} (f : A -> B) (l : list A) x y :
  NoDup (f <$> l) -> x ∈ l -> y ∈ l -> f x = f y -> x = y.
Proof.
  induction l as [|z l IH]; intros Hnd Hx Hy Hf; [by apply elem_of_nil in Hx|].
  cbn in Hnd. apply NoDup_cons in Hnd as [Hz Hnd].
  apply elem_of_cons in Hx as [->|Hx]; apply elem_of_cons in Hy as [->|Hy].
  - done.
  - exfalso. apply Hz. rewrite Hf. apply list_elem_of_fmap. by exists y.
  - exfalso. apply Hz. rewrite <- Hf. apply list_elem_of_fmap. by exists x.
  - by apply IH.
Qed.

Lemma elem_of_cells T p off P n :
  prefix_offset T !! p = Some off ->
  property_number T !! P = Some n ->
  (p, P, off + n) ∈ cells T.
Proof.
  intros Hp HP. unfold cells. apply list_elem_of_bind. exists (p, off).
  split; [|by apply elem_of_map_to_list].
  apply list_elem_of_bind. exists (P, n).
  split; [by left|by apply elem_of_map_to_list].
Qed.

Lemma loaded_cells_distinct : NoDup (cells loaded).*2.
Proof. apply distinctb_NoDup. vm_compute. reflexivity. Qed.

(** X27: in the tables [init()] builds, no two attributes share a cell
    of the cache: the cell of a property under a prefix determines both
    the prefix and the property. *)
Theorem cells_are_disjoint p p' off off' P P' n n' :
  prefix_offset loaded !! p = Some off ->
  prefix_offset loaded !! p' = Some off' ->
  property_number loaded !! P = Some n ->
  property_number loaded !! P' = Some n' ->
  off + n = off' + n' ->
  p = p' /\ P = P'.
Proof.
  intros Hp Hp' HP HP' Heq.
  pose proof (elem_of_cells loaded p off P n Hp HP) as H1.
  pose proof (elem_of_cells loaded p' off' P' n' Hp' HP') as H2.
  pose proof (NoDup_fmap_inj snd (cells loaded) _ _ loaded_cells_distinct H1 H2 Heq) as E.
  clear H1 H2 Hp Hp' HP HP' Heq. by injection E as -> ->.
Qed.

Lemma same_normalizer_eq f g : same_normalizer f g = true -> f = g.
Proof. by destruct f as [[]|], g as [[]|]. Qed.

Lemma fans_outb_sound T q prio alts P func :
  fans_outb T q prio alts P func = true -> fans_out T q prio alts P func.
Proof.
  unfold fans_outb, fans_out. intros H.
  destruct (property_number T !! P) as [n|]; [|discriminate].
  destruct (expansions T !! (q +:+ P)) as [e|]; [|discriminate].
  apply andb_prop in H as [Hu Hall]. exists n, e. split; [done|]. split; [done|].
  rewrite forallb_forall in Hu, Hall. split.
  - intros x Hx. apply list_elem_of_In, Hu, andb_prop in Hx as [H1 H2].
    split; [by apply Nat.eqb_eq|by apply same_normalizer_eq].
  - intros p Hp. apply list_elem_of_In, Hall in Hp.
    destruct (prefix_offset T !! p) as [off|]; [|discriminate].
    exists off. split; [done|].
    apply existsb_exists in Hp as ([[q0 i] g] & Hin & Hi).
    pose proof (Hu _ Hin) as Hq. apply andb_prop in Hq as [H1 H2].
    cbn in H1, H2, Hi. apply Nat.eqb_eq in H1, Hi. apply same_normalizer_eq in H2.
    subst. by apply list_elem_of_In.
Qed.

Lemma all_fan_out_sound R T q prio alts P func :
  all_fan_out R T = true ->
  prefix_subs R !! q = Some (prio, alts) ->
  (P, func) ∈ style_properties ->
  fans_out T q prio alts P func.
Proof.
  unfold all_fan_out. rewrite forallb_forall. intros H Hq HP.
  apply fans_outb_sound.
  specialize (H (q, (prio, alts))). rewrite forallb_forall in H.
  apply (H (proj1 (list_elem_of_In _ _) (proj2 (elem_of_map_to_list _ _ _) Hq)) (P, func)).
  by apply list_elem_of_In.
Qed.

Lemma loaded_fans_out q prio alts P func :
  prefix_subs registered !! q = Some (prio, alts) ->
  (P, func) ∈ style_properties ->
  fans_out loaded q prio alts P func.
Proof. apply all_fan_out_sound. vm_compute. reflexivity. Qed.

(** X28: an assignment to a prefixed property, made after the build, is
    read under every prefix the rule of its prefix names: for the rule
    [q -> (prio, alts)] of [prefix_subs] and a property [P], once
    [setattr(q + P, v)] has returned on a heavy style, [P] reads as the
    normalised [v] under each prefix of [alts]. *)
Theorem prefixed_assignment_is_read easy depth fuel st st' a s q prio alts P func p v :
  prefix_subs registered !! q = Some (prio, alts) ->
  p ∈ alts ->
  (P, func) ∈ style_properties ->
  styles_built st = true ->
  heap st !! a = Some s ->
  heavy s = true ->
  setattr easy loaded depth fuel a (q +:+ P) v st = Ok tt st' ->
  exists st'',
    (set_prefix loaded a p ;;; getter loaded a P) st' = Ok (normalised easy func v) st''.
Proof.
  intros Hq Hp HP Hbuilt Ha Hheavy Hrun.
  destruct (loaded_fans_out q prio alts P func Hq HP) as (n & e & Hn & He & Hu & Hall).
  destruct (Hall p Hp) as (off & Hoff & Hin).
  destruct (setattr_slot easy loaded depth fuel st st' a s (q +:+ P) v e prio func
              (off + n) Hbuilt Ha Hheavy He Hu Hrun Hin) as (c & Hc & Hslot).
  destruct (read_built loaded a _ c p off P n st' Hc eq_refl Hoff Hn)
    as (w & st'' & Hread & Hw).
  { by eapply lookup_lt_Some. }
  exists st''. rewrite Hread. f_equal. congruence.
Qed.

End TableFacts.

(** ** The properties above at concrete configurations *)

(** Membership in a list that evaluates to a literal. *)
Ltac among := apply list_elem_of_In; vm_compute; repeat (first [left; reflexivity | right]).

Section StyleWitnesses.

Import Style Props Tuples Frame Ranges StyleMore Examples MoreExamples.

Lemma loaded_slots_in_range : slots_in_range loaded.
Proof. apply slots_in_rangeb_sound. vm_compute. reflexivity. Qed.

Lemma loaded_offsets_in_range : offsets_in_range loaded.
Proof. apply offsets_in_rangeb_sound. vm_compute. reflexivity. Qed.

(** [expand_properties_priority_order] applies to a batch of two assignments to [xpos]. *)
Lemma expand_properties_priority_order_witness :
  exists ts,
    expand_properties plain loaded [("hover_xpos", VInt 10); ("xpos", VInt 0)] = inr ts /\
    Permutation
      (batch_tuples plain loaded [("hover_xpos", VInt 10); ("xpos", VInt 0)]) ts /\
    StronglySorted (fun a b : triple => a.1.1 <= b.1.1) ts.
Proof.
  eexists. split; [vm_compute; reflexivity|].
  apply (expand_properties_priority_order loaded plain
           [("hover_xpos", VInt 10); ("xpos", VInt 0)]).
  vm_compute. reflexivity.
Defined.



(** [highest_priority_wins] applies to [xpos] and [hover_xpos] in one batch, read at the slot of [xpos] under [hover_]. *)
Lemma highest_priority_wins_witness :
  exists c',
    replay_batches plain loaded [[("xpos", VInt 0); ("hover_xpos", VInt 10)]]
      (replicate (property_numbers loaded) VNone) = inr c' /\
    c' !! 313 = Some (VInt 10).
Proof.
  eexists. split; [vm_compute; reflexivity|].
  apply (highest_priority_wins loaded plain []
           [("xpos", VInt 0); ("hover_xpos", VInt 10)]
           (replicate (property_numbers loaded) VNone) _ 2 313 (VInt 10)).
  - vm_compute. reflexivity.
  - among.
  - eassert (El : batch_tuples plain loaded [("xpos", VInt 0); ("hover_xpos", VInt 10)] = _)
      by (vm_compute; reflexivity).
    rewrite El. clear El. intros q w H. apply list_elem_of_In in H. cbn in H.
    repeat (destruct H as [H|H];
            [first [discriminate H | injection H as <- <-; first [left; lia | right; split; reflexivity]]|]).
    destruct H.
Defined.


Lemma root_with_well_sized b : well_sized loaded (root_with b).
Proof.
  intros a s c Ha Hc. exfalso. destruct a as [|a].
  - injection Ha as <-. discriminate Hc.
  - by destruct a.
Qed.

(** [built_styles_are_readable] applies to the global build of one root style. *)
Lemma built_styles_are_readable_witness :
  exists v st'',
    (set_prefix loaded 0 "hover_" ;;; getter loaded 0 "xpos")
      (state_after (build_styles plain loaded 1000 1000) (root_with [("xpos", VInt 3)]))
    = Ok v st''.
Proof.
  eapply (built_styles_are_readable plain loaded 1000 1000
           (root_with [("xpos", VInt 3)]) _ [0] 0 _ "hover_" "xpos").
  - exact loaded_slots_in_range.
  - exact loaded_offsets_in_range.
  - apply root_with_well_sized.
  - reflexivity.
  - vm_compute. reflexivity.
  - by left.
  - reflexivity.
  - reflexivity.
  - vm_compute. by eexists.
  - vm_compute. by eexists.
Defined.

(** [setattr_value_is_read] applies to [xalign] assigned after the build, read at the slot of [xanchor] under [hover_]. *)
Lemma setattr_value_is_read_witness :
  exists s' c,
    heap (state_after (setattr plain loaded 1000 1000 0 "xalign" (VInt 7))
            (state_after (build_styles plain loaded 1000 1000) (root_with [])))
      !! 0 = Some s' /\
    cache s' = Some c /\
    c !! 308 = Some (normalised plain None (VInt 7)).
Proof.
  eapply (setattr_value_is_read plain loaded 1000 1000
            (state_after (build_styles plain loaded 1000 1000) (root_with []))
            _ 0 _ "xalign" (VInt 7) _ 1 None 308).
  - vm_compute. reflexivity.
  - vm_compute. reflexivity.
  - reflexivity.
  - vm_compute. reflexivity.
  - intros e He. apply list_elem_of_In in He. cbn in He.
    repeat (destruct He as [<-|He]; [split; reflexivity|]). destruct He.
  - vm_compute. reflexivity.
  - among.
Defined.

(** [child_copies_parent] applies to ["button"], child of ["default"]. *)
Lemma child_copies_parent_witness :
  exists c,
    heap (state_after (build_style plain loaded 1000 1000 1) (state_after family reset))
      !! 1 = Some (set_cache (Some c) (created 384 "button" (Some "default") None)) /\
    exists po',
      heap (state_after (build_style plain loaded 1000 1000 1) (state_after family reset))
        !! 0 = Some po' /\ cache po' = Some c.
Proof.
  eapply (child_copies_parent plain loaded 999 999 (state_after family reset) _ 1
            _ "default" 0 _).
  - vm_compute. reflexivity.
  - reflexivity.
  - reflexivity.
  - reflexivity.
  - vm_compute. reflexivity.
  - discriminate.
  - vm_compute. reflexivity.
  - reflexivity.
  - vm_compute. reflexivity.
Defined.


(** [build_style_idempotent] applies to a root style with [xpos = 3]. *)
Lemma build_style_idempotent_witness :
  build_style plain loaded 1000 1000 0
    (state_after (build_style plain loaded 1000 1000 0) (root_with [("xpos", VInt 3)]))
  = Ok tt
      (state_after (build_style plain loaded 1000 1000 0) (root_with [("xpos", VInt 3)])).
Proof.
  eapply (build_style_idempotent plain loaded 999 999 999 999
            (root_with [("xpos", VInt 3)]) _ 0 _ _).
  - reflexivity.
  - reflexivity.
  - left. split; reflexivity.
  - vm_compute. reflexivity.
Defined.


(** [create_then_lookup] applies to the first [create("default", None)]. *)
Lemma create_then_lookup_witness :
  StyleManager_getattr "default" (state_after one_style reset)
  = Ok (length (heap reset)) (state_after one_style reset) /\
  exists_ "default" (state_after one_style reset) = true /\
  (forall other, other <> "default" ->
     StyleManager_getattr other (state_after one_style reset)
     = match style_map reset !! other with
       | Some b => Ok b (state_after one_style reset)
       | None => Raise (Exception_ ("The style " +:+ other +:+ " does not exist."))
                   (state_after one_style reset)
       end).
Proof.
  apply (create_then_lookup plain loaded 1000 1000 reset (state_after one_style reset)
           "default" None).
  vm_compute. reflexivity.
Defined.

(** [clear_before_and_after_build] applies to a root style with [xpos = 3]. *)
Lemma clear_before_and_after_build_witness :
  (styles_built (root_with [("xpos", VInt 3)]) = false ->
   (clear 0 ;;; build_style plain loaded 1000 1000 0) (root_with [("xpos", VInt 3)])
   = Ok tt (set_heap
              (<[0 := set_cache (Some (replicate (property_numbers loaded) VNone))
                        (set_properties []
                           {| cache := None; properties := [[("xpos", VInt 3)]];
                              offset := 384; prefix := "insensitive_"; heavy := true;
                              name := Some "a"; parent := None |})]>
                 (heap (root_with [("xpos", VInt 3)])))
              (root_with [("xpos", VInt 3)]))) /\
  (forall st',
     build_styles plain loaded 1000 1000 (root_with [("xpos", VInt 3)]) = Ok tt st' ->
     clear 0 st'
     = Raise (Exception_ "Cannot clear a style after styles have been built.") st').
Proof.
  apply (clear_before_and_after_build plain loaded 999 999 (root_with [("xpos", VInt 3)]) 0);
    reflexivity.
Defined.


(** [take_resolves_alike] applies to two root styles with different properties. *)
Lemma take_resolves_alike_witness :
  exists c sa' sb',
    heap (state_after (take plain loaded 1000 1000 0 1 ;;;
                       build_style plain loaded 1000 1000 1 ;;;
                       build_style plain loaded 1000 1000 0)
            (state_after two_roots reset)) !! 0 = Some sa' /\
    cache sa' = Some c /\
    heap (state_after (take plain loaded 1000 1000 0 1 ;;;
                       build_style plain loaded 1000 1000 1 ;;;
                       build_style plain loaded 1000 1000 0)
            (state_after two_roots reset)) !! 1 = Some sb' /\
    cache sb' = Some c.
Proof.
  eapply (take_resolves_alike plain loaded 999 999 (state_after two_roots reset) _ 0 1
            _ _ (replicate (property_numbers loaded) VNone)).
  - vm_compute. reflexivity.
  - discriminate.
  - vm_compute. reflexivity.
  - vm_compute. reflexivity.
  - reflexivity.
  - reflexivity.
  - left. split; reflexivity.
  - left. split; reflexivity.
  - intros pn H. discriminate H.
  - intros pn H. discriminate H.
  - vm_compute. reflexivity.
Defined.

End StyleWitnesses.

Section StoreWitnesses.

Import JSONDB JSONDBMore Store Examples.

Lemma developer_db_guard : guard_passes developer_db.
Proof. intros H. discriminate H. Qed.

Lemma released_db_guard : guard_passes released_db.
Proof. intros H. discriminate H. Qed.

(** [setitem_then_getitem] applies to a new item in developer mode. *)
Lemma setitem_then_getitem_witness :
  exists s',
    setitem "color" (PStr "red") developer_db = Ok tt s' /\
    getitem "color" s' = Ok (PStr "red") s' /\
    dirty s' = true /\
    forall y, y <> "color" ->
      returned (getitem y s') = returned (getitem y developer_db).
Proof.
  apply (setitem_then_getitem developer_db "color" (PStr "red"));
    [exact developer_db_guard|reflexivity|reflexivity].
Defined.

(** [setitem_rejects_atomically] applies to a value that is not JSON. *)
Lemma setitem_rejects_atomically_witness :
  setitem "color" (PObject 0) developer_db
  = Raise (if developer developer_db
           then TypeError "The data is not JSON serializable."
           else RuntimeError "A JSONDB can only be modified when config.developer is True.")
          developer_db.
Proof.
  apply (setitem_rejects_atomically developer_db "color" (PObject 0)).
  right. reflexivity.
Defined.

(** [reads_are_stable] applies to the first read of a line's dictionary. *)
Lemma reads_are_stable_witness :
  getitem "enabled" (touched line_db) = Ok (PBool false) (touched line_db) /\
  dirty (touched line_db) = dirty line_db.
Proof.
  destruct (reads_are_stable line_db (touched line_db) "enabled" PNone) as [H _].
  apply H. reflexivity.
Defined.

(** [contains_agrees_with_getitem] applies to an item that is stored. *)
Lemma contains_agrees_with_getitem_witness :
  exists v,
    getitem "enabled" released_db = Ok v released_db /\
    get "enabled" PNone released_db = Ok v released_db.
Proof.
  apply (contains_agrees_with_getitem released_db released_db "enabled" true PNone).
  reflexivity.
Defined.


(** [ior_skips_check] applies to an object that is not JSON, stored with developer mode off. *)
Lemma ior_skips_check_witness :
  exists s',
    ior ([] ++ [("hook", PObject 0)]) released_db = Ok tt s' /\
    getitem "hook" s' = Ok (PObject 0) s' /\
    dirty s' = true.
Proof.
  apply (ior_skips_check released_db [] "hook" (PObject 0)).
  exact released_db_guard.
Defined.

(** [setdefault_never_overwrites] applies to an item that is stored, with developer mode off. *)
Lemma setdefault_never_overwrites_witness :
  setdefault "enabled" (PObject 0) released_db = Ok (PBool true) (touched released_db) /\
  getitem "enabled" (touched released_db) = Ok (PBool true) (touched released_db) /\
  dirty (touched released_db) = dirty released_db.
Proof.
  destruct (setdefault_never_overwrites released_db "enabled" (PObject 0)
              released_db_guard) as [H _].
  apply H. reflexivity.
Defined.

(** [delitem_and_pop] applies to an item that is stored. *)
Lemma delitem_and_pop_witness :
  exists s',
    delitem "enabled" released_db = Ok tt s' /\
    pop "enabled" PNone released_db = Ok (PBool true) s' /\
    contains "enabled" s' = Ok false s' /\ dirty s' = true /\
    forall y, y <> "enabled" ->
      returned (getitem y s') = returned (getitem y released_db).
Proof.
  exact (delitem_and_pop released_db "enabled" PNone released_db_guard).
Defined.

(** [clear_empties] applies to a dictionary of one item. *)
Lemma clear_empties_witness :
  exists s',
    clear released_db = Ok tt s' /\ len_ s' = Ok 0 s' /\
    contains "enabled" s' = Ok false s' /\ dirty s' = true.
Proof.
  apply (clear_empties released_db "enabled"). exact released_db_guard.
Defined.

End StoreWitnesses.

Section TableWitnesses.

Import Style Props Tuples Frame Ranges Cells StyleMore Examples MoreExamples.

(** [unnamed_slots_are_kept] applies to the slot of [xpos] under [idle_], which [hover_xpos] does not reach. *)
Lemma unnamed_slots_are_kept_witness :
  exists c',
    replay_batches plain loaded [[("hover_xpos", VInt 10)]]
      (replicate (property_numbers loaded) VNone) = inr c' /\
    length c' = length (replicate (property_numbers loaded) VNone) /\
    c' !! 121 = replicate (property_numbers loaded) VNone !! 121.
Proof.
  eexists. split; [vm_compute; reflexivity|].
  apply (unnamed_slots_are_kept plain loaded [[("hover_xpos", VInt 10)]]).
  - vm_compute. reflexivity.
  - intros items p w Hitems. apply list_elem_of_singleton in Hitems as ->.
    eassert (El : batch_tuples plain loaded [("hover_xpos", VInt 10)] = _)
      by (vm_compute; reflexivity).
    rewrite El. clear El. intros H. apply list_elem_of_In in H. cbn in H.
    repeat (destruct H as [H|H]; [discriminate H|]). destruct H.
Defined.

(** [set_prefix_unknown] applies to the empty prefix, which has no storage. *)
Lemma set_prefix_unknown_witness :
  set_prefix loaded 0 "" (root_with [("xpos", VInt 3)])
  = Raise (KeyError "")
      (set_heap
         (<[0 := set_prefix_field ""
                   {| cache := None; properties := [[("xpos", VInt 3)]];
                      offset := 384; prefix := "insensitive_"; heavy := true;
                      name := Some "a"; parent := None |}]>
            (heap (root_with [("xpos", VInt 3)])))
         (root_with [("xpos", VInt 3)])) /\
  returned (getter loaded 0 "xpos"
              (set_heap
                 (<[0 := set_prefix_field ""
                           {| cache := None; properties := [[("xpos", VInt 3)]];
                              offset := 384; prefix := "insensitive_"; heavy := true;
                              name := Some "a"; parent := None |}]>
                    (heap (root_with [("xpos", VInt 3)])))
                 (root_with [("xpos", VInt 3)])))
  = returned (getter loaded 0 "xpos" (root_with [("xpos", VInt 3)])).
Proof.
  apply (set_prefix_unknown loaded (root_with [("xpos", VInt 3)]) 0).
  - reflexivity.
  - vm_compute. reflexivity.
Defined.

Lemma root_with_distinct b : distinct_styles (root_with b).
Proof.
  intros k1 k2 a H1 H2. cbn [style_map root_with] in H1, H2.
  apply lookup_singleton_Some in H1 as [<- _].
  by apply lookup_singleton_Some in H2 as [<- _].
Qed.

(** [restore_of_backup] applies to a registry of one style. *)
Lemma restore_of_backup_witness :
  exists o st' pending,
    backup (root_with [("xpos", VInt 3)]) = Ok o (root_with [("xpos", VInt 3)]) /\
    restore o (root_with [("xpos", VInt 3)]) = Ok tt st' /\
    heap st' = heap (root_with [("xpos", VInt 3)]) /\
    style_map st' = style_map (root_with [("xpos", VInt 3)]) /\
    styles_built st' = false /\
    styles_pending st' = Some pending /\
    forall a, a ∈ pending <->
      exists k, style_map (root_with [("xpos", VInt 3)]) !! k = Some a.
Proof.
  apply (restore_of_backup (root_with [("xpos", VInt 3)]));
    [apply root_with_valid|apply root_with_distinct].
Defined.

(** [cells_are_disjoint] applies to the cell of [xpos] under [hover_]. *)
Lemma cells_are_disjoint_witness : "hover_" = "hover_" /\ "xpos" = "xpos".
Proof.
  apply (cells_are_disjoint "hover_" "hover_" 256 256 "xpos" "xpos" 57 57);
    vm_compute; reflexivity.
Defined.

(** [prefixed_assignment_is_read] applies to [hover_xpos] read under [activate_]. *)
Lemma prefixed_assignment_is_read_witness :
  exists st'',
    (set_prefix loaded 0 "activate_" ;;; getter loaded 0 "xpos")
      (state_after (setattr plain loaded 1000 1000 0 ("hover_" +:+ "xpos") (VInt 10))
         (state_after (build_styles plain loaded 1000 1000) (root_with [])))
    = Ok (normalised plain None (VInt 10)) st''.
Proof.
  eapply (prefixed_assignment_is_read plain 1000 1000
            (state_after (build_styles plain loaded 1000 1000) (root_with []))
            _ 0 _ "hover_" 2
            ["selected_hover_"; "selected_activate_"; "hover_"; "activate_"]
            "xpos" None "activate_" (VInt 10)).
  - vm_compute. reflexivity.
  - repeat (first [by left | right]).
  - unfold style_properties. repeat (first [by left | right]).
  - vm_compute. reflexivity.
  - vm_compute. reflexivity.
  - reflexivity.
  - vm_compute. reflexivity.
Defined.

End TableWitnesses.
